(** * Asset metadata resolution of fairseq2: [StandardAssetStore]

    A shallow embedding of [src/fairseq2/assets/store.py] and the
    properties of its card resolution: provider search order, merging of
    environment specific metadata, the base chain, and the errors raised
    on the way.  The call that [src/fairseq2/recipes/assets.py] makes into
    the store comes last. *)

From Stdlib Require Import Ascii.
From stdpp Require Import base option strings list gmap.

#[local] Set Warnings "-register-all".

Open Scope string_scope.
Open Scope list_scope.

(** ** Python values held in asset metadata *)

(** The values of a [Dict[str, Any]] as they come out of an asset card
    file.  Floating point numbers are left out: nothing below inspects
    more of a value than its truthiness and whether it is a [str]. *)
Inductive Value : Type :=
| VNone
| VBool (b : bool)
| VInt (n : Z)
| VStr (s : string)
| VList (items : list Value)
| VDict (items : list (string * Value)).

(** [bool(v)] *)
Definition truthy (v : Value) : bool :=
  match v with
  | VNone => false
  | VBool b => b
  | VInt n => negb (n =? 0)%Z
  | VStr s => match s with EmptyString => false | String _ _ => true end
  | VList items => match items with [] => false | _ :: _ => true end
  | VDict items => match items with [] => false | _ :: _ => true end
  end.

(** [isinstance(v, str)] *)
Definition is_str (v : Value) : bool :=
  match v with VStr _ => true | _ => false end.

(** [f"{type(v)}"] *)
Definition type_repr (v : Value) : string :=
  match v with
  | VNone => "<class 'NoneType'>"
  | VBool _ => "<class 'bool'>"
  | VInt _ => "<class 'int'>"
  | VStr _ => "<class 'str'>"
  | VList _ => "<class 'list'>"
  | VDict _ => "<class 'dict'>"
  end.

(** [Dict[str, Any]] *)
Abbreviation Metadata := (gmap string Value).

(** ** Exceptions and the effect monad *)

Inductive Error : Type :=
| ValueError (msg : string)
| TypeError (msg : string)
| KeyError (key : string)
| AssetNotFoundError (msg : string)
| AssetCardError (msg : string)
| OtherError (msg : string).

(** The result of a call that came back. *)
Inductive Res (A : Type) : Type :=
| Ok (a : A)
| Raise (e : Error).
Arguments Ok {A} a.
Arguments Raise {A} e.

(** Modelled from the spec: [fairseq2/assets/metadata_provider.py] is not
    part of the sources at hand.  A provider answers [get_metadata(name)]
    with a fresh mapping, raises [AssetNotFoundError] when it has no
    record under exactly that name, and may raise a configuration error
    of its own. *)
Record AssetMetadataProvider : Type := {
  get_metadata : string -> Res Metadata
}.

(** [EnvironmentResolver.__call__(self) -> Optional[str]] *)
Definition EnvironmentResolver : Type := unit -> Res (option string).

(** What the store asks of its collaborators, in the order it asks. *)
Inductive Event : Type :=
| EvResolve (resolver : EnvironmentResolver)
| EvGetMetadata (provider : AssetMetadataProvider) (name : string).

(** A computation yields the calls it made and, unless the nesting of
    [_do_retrieve_card] frames went deeper than the stack allows
    ([None]), how it came back. *)
Definition M (A : Type) : Type := list Event * option (Res A).

Definition trace {A} (m : M A) : list Event := m.1.
Definition outcome {A} (m : M A) : option (Res A) := m.2.

Definition raise {A} (e : Error) : M A := ([], Some (Raise e)).
Definition too_deep {A} : M A := ([], None).

#[global] Instance M_ret : MRet M := fun A a => ([], Some (Ok a)).

#[global] Instance M_bind : MBind M := fun A B f m =>
  match m with
  | (t, Some (Ok a)) => let '(t', r) := f a in (t ++ t', r)
  | (t, Some (Raise e)) => (t, Some (Raise e))
  | (t, None) => (t, None)
  end.

#[local] Arguments mbind : simpl never.
#[local] Arguments mret : simpl never.

(** [try: body except AssetNotFoundError: <fall through>] *)
Definition except_not_found {A} (body : M A) : M (option A) :=
  match body with
  | (t, Some (Ok a)) => (t, Some (Ok (Some a)))
  | (t, Some (Raise (AssetNotFoundError _))) => (t, Some (Ok None))
  | (t, Some (Raise e)) => (t, Some (Raise e))
  | (t, None) => (t, None)
  end.

(** [provider.get_metadata(name)] *)
Definition call_get_metadata (provider : AssetMetadataProvider) (name : string)
  : M Metadata :=
  ([EvGetMetadata provider name], Some (get_metadata provider name)).

(** [resolver()] *)
Definition call_resolver (resolver : EnvironmentResolver) : M (option string) :=
  ([EvResolve resolver], Some (resolver ())).

(** ** Dictionary statements *)

(** [del d[key]] *)
Definition del_item (d : Metadata) (key : string) : M Metadata :=
  match d !! key with
  | Some _ => mret (delete key d)
  | None => raise (KeyError key)
  end.

(** [d.update(other)] *)
Definition update (d other : Metadata) : Metadata := other ∪ d.

(** ** The store *)

Record StandardAssetStore : Type := {
  env_resolvers : list EnvironmentResolver;
  metadata_providers : list AssetMetadataProvider;
  user_metadata_providers : list AssetMetadataProvider
}.

(** [StandardAssetStore.__init__] *)
Definition __init__ (metadata_provider : AssetMetadataProvider) : StandardAssetStore :=
  {| env_resolvers := [];
     metadata_providers := [metadata_provider];
     user_metadata_providers := [] |}.

(** [add_file_metadata_provider] and [add_package_metadata_provider],
    with the provider they construct passed in. *)
Definition add_metadata_provider (self : StandardAssetStore)
    (provider : AssetMetadataProvider) (user : bool) : StandardAssetStore :=
  if user then
    {| env_resolvers := env_resolvers self;
       metadata_providers := metadata_providers self;
       user_metadata_providers := user_metadata_providers self ++ [provider] |}
  else
    {| env_resolvers := env_resolvers self;
       metadata_providers := metadata_providers self ++ [provider];
       user_metadata_providers := user_metadata_providers self |}.

(** One [for provider in ...: try: return ... except AssetNotFoundError:
    continue] loop of [_get_metadata]; [None] when the loop runs off its
    end. *)
Fixpoint first_found (providers : list AssetMetadataProvider) (name : string)
  : M (option Metadata) :=
  match providers with
  | [] => mret None
  | provider :: rest =>
      r ← except_not_found (call_get_metadata provider name);
      match r with
      | Some metadata => mret (Some metadata)
      | None => first_found rest name
      end
  end.

Definition not_found_message (name : string) : string :=
  "An asset with the name '" +:+ name +:+ "' cannot be found.".

Definition _get_metadata (self : StandardAssetStore) (name : string) : M Metadata :=
  r ← first_found (reverse (user_metadata_providers self)) name;
  match r with
  | Some metadata => mret metadata
  | None =>
      r ← first_found (reverse (metadata_providers self)) name;
      match r with
      | Some metadata => mret metadata
      | None => raise (AssetNotFoundError (not_found_message name))
      end
  end.

(** [_resolve_envs]: the loop over the resolvers, with [envs] as built so
    far. *)
Fixpoint collect_envs (resolvers : list EnvironmentResolver) (envs : list string)
  : M (list string) :=
  match resolvers with
  | [] => mret envs
  | resolver :: rest =>
      env ← call_resolver resolver;
      match env with
      | Some env =>
          if truthy (VStr env) then collect_envs rest (envs ++ [env])
          else collect_envs rest envs
      | None => collect_envs rest envs
      end
  end.

Definition _resolve_envs (self : StandardAssetStore) : M (list string) :=
  envs ← collect_envs (env_resolvers self) [];
  mret (envs ++ ["user"]).

(** [f"{name}@{env}"] *)
Definition env_name (name env : string) : string := name +:+ "@" +:+ env.

(** The loop of [_do_retrieve_card] that merges environment specific
    metadata into [metadata]. *)
Fixpoint merge_env_metadata (self : StandardAssetStore) (name : string)
    (envs : list string) (metadata : Metadata) : M Metadata :=
  match envs with
  | [] => mret metadata
  | env :: rest =>
      r ← except_not_found (
            env_metadata ← _get_metadata self (env_name name env);
            env_metadata ← del_item env_metadata "name";
            mret (update metadata env_metadata));
      merge_env_metadata self name rest (default metadata r)
  end.

(** Modelled from the spec: [fairseq2/assets/card.py] is not part of the
    sources at hand.  [AssetCard(metadata, base_card)] holds the merged
    metadata and, when there is one, the card of its base. *)
Inductive AssetCard : Type :=
| mkAssetCard (metadata : Metadata) (base : option AssetCard).

Definition card_metadata (card : AssetCard) : Metadata :=
  match card with mkAssetCard metadata _ => metadata end.

Definition card_base (card : AssetCard) : option AssetCard :=
  match card with mkAssetCard _ base => base end.

Definition base_type_message (name : string) (base_name : Value) : string :=
  "The value of the field 'base' of the asset card '" +:+ name +:+
  "' must be of type `<class 'str'>`, but is of type `" +:+
  type_repr base_name +:+ "` instead.".

(** [_do_retrieve_card], with [depth] the number of nested frames of it
    that the interpreter's stack still admits. *)
Fixpoint _do_retrieve_card (depth : nat) (self : StandardAssetStore)
    (name : string) (envs : list string) : M AssetCard :=
  match depth with
  | O => too_deep
  | S depth' =>
      metadata ← _get_metadata self name;
      metadata ← merge_env_metadata self name envs metadata;
      let base_name := default VNone (metadata !! "base") in
      if truthy base_name then
        match base_name with
        | VStr base =>
            base_card ← _do_retrieve_card depth' self base envs;
            mret (mkAssetCard metadata (Some base_card))
        | _ => raise (AssetCardError (base_type_message name base_name))
        end
      else mret (mkAssetCard metadata None)
  end.

(** ["@" in name] *)
Fixpoint contains_at (name : string) : bool :=
  match name with
  | EmptyString => false
  | String c rest => if Ascii.eqb c "@"%char then true else contains_at rest
  end.

Definition reserved_message : string :=
  "`name` must not contain the reserved '@' character.".

Definition retrieve_card (depth : nat) (self : StandardAssetStore) (name : string)
  : M AssetCard :=
  if contains_at name then raise (ValueError reserved_message)
  else
    envs ← _resolve_envs self;
    _do_retrieve_card depth self name envs.

(** ** Stores to run the definitions on *)

(** A provider backed by a fixed table of records. *)
Definition table_provider (records : list (string * Metadata)) : AssetMetadataProvider :=
  {| get_metadata := fun name =>
       match list_find (fun r => String.eqb r.1 name) records with
       | Some (_, (_, metadata)) => Ok metadata
       | None => Raise (AssetNotFoundError name)
       end |}.

Definition rec_m : Metadata :=
  {[ "name" := VStr "m"; "a" := VInt 1; "b" := VInt 2 ]}.
Definition rec_m_prod : Metadata :=
  {[ "name" := VStr "m"; "b" := VInt 9 ]}.
Definition prod_resolver : EnvironmentResolver := fun _ => Ok (Some "prod").
Definition prod_store : StandardAssetStore :=
  {| env_resolvers := [prod_resolver];
     metadata_providers := [table_provider [("m", rec_m); ("m@prod", rec_m_prod)]];
     user_metadata_providers := [] |}.


(** * Properties *)

(** ** The monad *)

Lemma bind_ok {A B} (t : list Event) (a : A) (f : A -> M B) :
  ((t, Some (Ok a)) : M A) ≫= f = (t ++ trace (f a), outcome (f a)).
Proof. unfold mbind, M_bind, trace, outcome. by destruct (f a). Qed.

Lemma bind_raise {A B} (t : list Event) (e : Error) (f : A -> M B) :
  ((t, Some (Raise e)) : M A) ≫= f = (t, Some (Raise e)).
Proof. reflexivity. Qed.

Lemma bind_too_deep {A B} (t : list Event) (f : A -> M B) :
  ((t, None) : M A) ≫= f = (t, None).
Proof. reflexivity. Qed.

Lemma bind_ret_l {A B} (a : A) (f : A -> M B) : mret a ≫= f = f a.
Proof. unfold mret, M_ret. rewrite bind_ok. by destruct (f a). Qed.

Lemma bind_assoc {A B C} (m : M A) (f : A -> M B) (g : B -> M C) :
  (m ≫= f) ≫= g = m ≫= (fun a => f a ≫= g).
Proof.
  destruct m as [t [[a|e]|]]; try reflexivity.
  rewrite !bind_ok. destruct (f a) as [t' [[b|e]|]]; simpl;
    rewrite ?bind_ok, ?bind_raise, ?bind_too_deep; simpl; try reflexivity.
  destruct (g b) as [t'' r]; simpl. by rewrite app_assoc.
Qed.

(** The outcome of a bind only depends on the outcomes of its parts. *)
Lemma outcome_bind {A B} (m : M A) (f : A -> M B) :
  outcome (m ≫= f) =
  match outcome m with
  | Some (Ok a) => outcome (f a)
  | Some (Raise e) => Some (Raise e)
  | None => None
  end.
Proof.
  destruct m as [t [[a|e]|]]; try reflexivity.
  by rewrite bind_ok.
Qed.

Lemma trace_bind_ok {A B} (m : M A) (f : A -> M B) (a : A) :
  outcome m = Some (Ok a) -> trace (m ≫= f) = trace m ++ trace (f a).
Proof.
  destruct m as [t r]. intros H. change (r = Some (Ok a)) in H. subst r.
  by rewrite bind_ok.
Qed.

Lemma bind_ext {A B} (m : M A) (f g : A -> M B) :
  (forall a, f a = g a) -> m ≫= f = m ≫= g.
Proof.
  intros Hfg. destruct m as [t [[a|e]|]]; try reflexivity.
  by rewrite !bind_ok, Hfg.
Qed.

(** ** Searching the providers *)

(** [provider] answers [get_metadata(name)] with [AssetNotFoundError]. *)
Definition lacks (name : string) (provider : AssetMetadataProvider) : bool :=
  match get_metadata provider name with
  | Raise (AssetNotFoundError _) => true
  | _ => false
  end.

(** The calls [get_metadata(name)] on [providers], one after the other. *)
Definition queries (name : string) (providers : list AssetMetadataProvider)
  : list Event :=
  (fun provider => EvGetMetadata provider name) <$> providers.

(** User scope before global scope, each most recently added first. *)
Definition search_order (self : StandardAssetStore) : list AssetMetadataProvider :=
  reverse (user_metadata_providers self) ++ reverse (metadata_providers self).

Section search.
Variable name : string.

Lemma first_found_lacks (providers : list AssetMetadataProvider) :
  forallb (lacks name) providers = true ->
  first_found providers name = (queries name providers, Some (Ok None)).
Proof.
  induction providers as [|p rest IH]; [done|].
  simpl. intros [Hp Hrest]%andb_prop. unfold lacks in Hp.
  unfold call_get_metadata.
  destruct (get_metadata p name) as [md|[]]; try done.
  rewrite bind_ok. simpl. by rewrite (IH Hrest).
Qed.

Lemma first_found_hit (pre post : list AssetMetadataProvider)
    (p : AssetMetadataProvider) (md : Metadata) :
  forallb (lacks name) pre = true ->
  get_metadata p name = Ok md ->
  first_found (pre ++ p :: post) name
  = (queries name (pre ++ [p]), Some (Ok (Some md))).
Proof.
  intros Hpre Hp. induction pre as [|q pre IH]; simpl.
  - unfold call_get_metadata, except_not_found. rewrite Hp.
    by rewrite bind_ok.
  - apply andb_prop in Hpre as [Hq Hpre]. unfold lacks in Hq.
    unfold call_get_metadata.
    destruct (get_metadata q name) as [?|[]]; try done.
    rewrite bind_ok. simpl. by rewrite (IH Hpre).
Qed.

Lemma first_found_error (pre post : list AssetMetadataProvider)
    (p : AssetMetadataProvider) (e : Error) :
  forallb (lacks name) pre = true ->
  get_metadata p name = Raise e -> lacks name p = false ->
  first_found (pre ++ p :: post) name
  = (queries name (pre ++ [p]), Some (Raise e)).
Proof.
  intros Hpre Hp Hlacks. induction pre as [|q pre IH]; simpl.
  - unfold call_get_metadata. unfold lacks in Hlacks. rewrite Hp in *.
    by destruct e.
  - apply andb_prop in Hpre as [Hq Hpre]. unfold lacks in Hq.
    unfold call_get_metadata.
    destruct (get_metadata q name) as [?|[]]; try done.
    rewrite bind_ok. simpl. by rewrite (IH Hpre).
Qed.

Lemma first_found_app (l1 l2 : list AssetMetadataProvider) :
  first_found (l1 ++ l2) name
  = r ← first_found l1 name;
    match r with
    | Some metadata => mret (Some metadata)
    | None => first_found l2 name
    end.
Proof.
  induction l1 as [|p l1 IH]; simpl.
  - by rewrite bind_ret_l.
  - rewrite bind_assoc. apply bind_ext. intros [md|].
    + by rewrite bind_ret_l.
    + apply IH.
Qed.

(** The two loops of [_get_metadata] are one pass over [search_order]. *)
Lemma _get_metadata_search_order (self : StandardAssetStore) :
  _get_metadata self name
  = r ← first_found (search_order self) name;
    match r with
    | Some metadata => mret metadata
    | None => raise (AssetNotFoundError (not_found_message name))
    end.
Proof.
  unfold _get_metadata, search_order. rewrite first_found_app, bind_assoc.
  apply bind_ext. intros [md|]; [by rewrite bind_ret_l | done].
Qed.

Lemma _get_metadata_hit (self : StandardAssetStore) pre provider post record :
  search_order self = pre ++ provider :: post ->
  forallb (lacks name) pre = true ->
  get_metadata provider name = Ok record ->
  _get_metadata self name
  = (queries name (pre ++ [provider]), Some (Ok record)).
Proof.
  intros Horder Hpre Hrecord. rewrite _get_metadata_search_order, Horder.
  rewrite (first_found_hit _ _ _ _ Hpre Hrecord), bind_ok.
  unfold trace, outcome, mret, M_ret. simpl. by rewrite app_nil_r.
Qed.

Lemma _get_metadata_absent (self : StandardAssetStore) :
  forallb (lacks name) (search_order self) = true ->
  _get_metadata self name
  = (queries name (search_order self),
     Some (Raise (AssetNotFoundError (not_found_message name)))).
Proof.
  intros Hnone. rewrite _get_metadata_search_order.
  rewrite (first_found_lacks _ Hnone), bind_ok.
  unfold trace, outcome, raise. simpl. by rewrite app_nil_r.
Qed.

(** Looking a name up never recurses: it always comes back. *)
Lemma first_found_returns (providers : list AssetMetadataProvider) :
  is_Some (outcome (first_found providers name)).
Proof.
  induction providers as [|p rest IH]; simpl; [by eexists|].
  rewrite outcome_bind. unfold call_get_metadata.
  destruct (get_metadata p name) as [?|[]]; simpl; by eauto.
Qed.

Lemma _get_metadata_returns (self : StandardAssetStore) :
  is_Some (outcome (_get_metadata self name)).
Proof.
  rewrite _get_metadata_search_order, outcome_bind.
  destruct (first_found_returns (search_order self)) as [[[?|]|?] ->];
    by eauto.
Qed.
End search.

(** ** Merging environment specific metadata *)

(** The record [_get_metadata] finds for [name@env], if it finds one. *)
Definition env_record (self : StandardAssetStore) (name env : string)
  : option Metadata :=
  match outcome (_get_metadata self (env_name name env)) with
  | Some (Ok record) => Some record
  | _ => None
  end.

Lemma trace_bind {A B} (m : M A) (f : A -> M B) :
  trace (m ≫= f) =
  trace m ++ match outcome m with Some (Ok a) => trace (f a) | _ => [] end.
Proof.
  destruct m as [t [[a|e]|]]; unfold trace, outcome; simpl;
    rewrite ?bind_ok, ?bind_raise, ?bind_too_deep; simpl;
    by rewrite ?app_nil_r.
Qed.

Section merge.
Variables (self : StandardAssetStore) (name : string).

(** One turn of the loop, by what the probe for [name@env] gave. *)
Lemma merge_env_not_found env rest metadata msg :
  outcome (_get_metadata self (env_name name env))
    = Some (Raise (AssetNotFoundError msg)) ->
  merge_env_metadata self name (env :: rest) metadata
  = (trace (_get_metadata self (env_name name env))
       ++ trace (merge_env_metadata self name rest metadata),
     outcome (merge_env_metadata self name rest metadata)).
Proof.
  intros H. simpl.
  destruct (_get_metadata self (env_name name env)) as [t r].
  change (r = Some (Raise (AssetNotFoundError msg))) in H. subst r.
  rewrite bind_raise. unfold except_not_found. by rewrite bind_ok.
Qed.

Lemma merge_env_found env rest metadata record v :
  outcome (_get_metadata self (env_name name env)) = Some (Ok record) ->
  record !! "name" = Some v ->
  merge_env_metadata self name (env :: rest) metadata
  = (trace (_get_metadata self (env_name name env))
       ++ trace (merge_env_metadata self name rest
                   (update metadata (delete "name" record))),
     outcome (merge_env_metadata self name rest
                (update metadata (delete "name" record)))).
Proof.
  intros H Hname. simpl.
  destruct (_get_metadata self (env_name name env)) as [t r].
  change (r = Some (Ok record)) in H. subst r.
  rewrite bind_ok. unfold del_item. rewrite Hname, bind_ret_l.
  unfold mret at 1, M_ret, trace at 1, outcome at 1. simpl.
  unfold except_not_found. rewrite app_nil_r. by rewrite bind_ok.
Qed.

Lemma merge_env_no_name env rest metadata record :
  outcome (_get_metadata self (env_name name env)) = Some (Ok record) ->
  record !! "name" = None ->
  merge_env_metadata self name (env :: rest) metadata
  = (trace (_get_metadata self (env_name name env)),
     Some (Raise (KeyError "name"))).
Proof.
  intros H Hname. simpl.
  destruct (_get_metadata self (env_name name env)) as [t r].
  change (r = Some (Ok record)) in H. subst r.
  rewrite bind_ok. unfold del_item. rewrite Hname.
  unfold raise at 1. rewrite bind_raise.
  unfold trace, outcome, except_not_found. simpl.
  by rewrite bind_raise, app_nil_r.
Qed.

Lemma merge_env_error env rest metadata e :
  outcome (_get_metadata self (env_name name env)) = Some (Raise e) ->
  (forall msg, e <> AssetNotFoundError msg) ->
  merge_env_metadata self name (env :: rest) metadata
  = (trace (_get_metadata self (env_name name env)), Some (Raise e)).
Proof.
  intros H Hne. simpl.
  destruct (_get_metadata self (env_name name env)) as [t r].
  change (r = Some (Raise e)) in H. subst r.
  rewrite bind_raise. unfold except_not_found.
  destruct e; try by rewrite bind_raise.
  by destruct (Hne msg).
Qed.

(** What a successful run of the loop went through at its first tag. *)
Lemma merge_env_cons_inv env rest metadata merged :
  outcome (merge_env_metadata self name (env :: rest) metadata)
    = Some (Ok merged) ->
  (exists record v,
      env_record self name env = Some record /\ record !! "name" = Some v /\
      outcome (merge_env_metadata self name rest
                 (update metadata (delete "name" record))) = Some (Ok merged))
  \/ (env_record self name env = None /\
      outcome (merge_env_metadata self name rest metadata) = Some (Ok merged)).
Proof.
  intros H. unfold env_record.
  destruct (_get_metadata_returns (env_name name env) self) as [[record|e] Hget];
    rewrite Hget.
  - destruct (record !! "name") as [v|] eqn:Hname.
    + rewrite (merge_env_found _ _ _ _ _ Hget Hname) in H.
      left. by exists record, v.
    + by rewrite (merge_env_no_name _ _ _ _ Hget Hname) in H.
  - destruct e;
      try (rewrite (merge_env_error _ _ _ _ Hget) in H; by try done).
    rewrite (merge_env_not_found _ _ _ _ Hget) in H. by right.
Qed.

(** The merge leaves ['name'] as it found it. *)
Lemma merge_env_keeps_name envs metadata merged :
  outcome (merge_env_metadata self name envs metadata) = Some (Ok merged) ->
  merged !! "name" = metadata !! "name".
Proof.
  revert metadata. induction envs as [|env rest IH]; intros metadata H.
  - by injection H as ->.
  - apply merge_env_cons_inv in H as [(record & v & _ & _ & H)|[_ H]].
    + rewrite (IH _ H). unfold update.
      by rewrite lookup_union_r by apply lookup_delete_eq.
    + by apply IH.
Qed.

(** A field that no record of the remaining tags has stays as it is. *)
Lemma merge_env_keeps_field envs metadata merged key :
  outcome (merge_env_metadata self name envs metadata) = Some (Ok merged) ->
  (forall env record,
      env ∈ envs -> env_record self name env = Some record ->
      record !! key = None) ->
  merged !! key = metadata !! key.
Proof.
  revert metadata. induction envs as [|env rest IH]; intros metadata H Hnone.
  - by injection H as ->.
  - apply merge_env_cons_inv in H as [(record & v & Hrec & _ & H)|[_ H]].
    + rewrite (IH _ H) by (intros; eapply Hnone; [by right|done]).
      unfold update. rewrite lookup_union_r; [done|].
      destruct (decide (key = "name")) as [->|Hne].
      * apply lookup_delete_eq.
      * rewrite lookup_delete_ne by done. eapply Hnone; [by left|done].
    + apply IH; [done|]. intros; eapply Hnone; [by right|done].
Qed.

(** The last tag whose record has a field decides it. *)
Lemma merge_env_last_wins pre env post metadata merged record key v :
  outcome (merge_env_metadata self name (pre ++ env :: post) metadata)
    = Some (Ok merged) ->
  key <> "name" ->
  env_record self name env = Some record -> record !! key = Some v ->
  (forall env' record',
      env' ∈ post -> env_record self name env' = Some record' ->
      record' !! key = None) ->
  merged !! key = Some v.
Proof.
  intros H Hkey Hrec Hv Hpost. revert metadata H.
  induction pre as [|env0 pre IH]; intros metadata H; simpl in H.
  - apply merge_env_cons_inv in H as [(record' & v' & Hrec' & _ & H)|[Hrec' _]];
      [|congruence].
    assert (record' = record) as -> by congruence.
    rewrite (merge_env_keeps_field _ _ _ _ H Hpost). unfold update.
    apply lookup_union_Some_l. by rewrite lookup_delete_ne.
  - apply merge_env_cons_inv in H as [(? & ? & _ & _ & H)|[_ H]]; eauto.
Qed.
End merge.

(** ** The active environments *)

(** [resolver()] comes back rather than raising. *)
Definition returns (resolver : EnvironmentResolver) : bool :=
  match resolver () with Ok _ => true | Raise _ => false end.

(** What a resolver contributes to the list: its result, unless that is
    [None] or empty. *)
Definition resolved_env (resolver : EnvironmentResolver) : list string :=
  match resolver () with
  | Ok (Some env) => if truthy (VStr env) then [env] else []
  | _ => []
  end.

Definition active_envs (resolvers : list EnvironmentResolver) : list string :=
  concat (resolved_env <$> resolvers).

Lemma collect_envs_returns resolvers envs :
  forallb returns resolvers = true ->
  collect_envs resolvers envs
  = (EvResolve <$> resolvers, Some (Ok (envs ++ active_envs resolvers))).
Proof.
  revert envs. induction resolvers as [|r rest IH]; intros envs H.
  - unfold active_envs. simpl. by rewrite app_nil_r.
  - apply andb_prop in H as [Hr Hrest]. simpl collect_envs.
    change (active_envs (r :: rest)) with (resolved_env r ++ active_envs rest).
    rewrite fmap_cons. unfold call_resolver, resolved_env.
    unfold returns in Hr.
    destruct (r ()) as [[env|]|]; [| |done]; rewrite bind_ok.
    + destruct env as [|c env]; unfold trace, outcome; simpl;
        rewrite (IH _ Hrest); simpl; by rewrite <- ?app_assoc.
    + by rewrite (IH _ Hrest).
Qed.

Lemma collect_envs_ok_inv resolvers envs envs' :
  outcome (collect_envs resolvers envs) = Some (Ok envs') ->
  forallb returns resolvers = true.
Proof.
  revert envs. induction resolvers as [|r rest IH]; intros envs H; [done|].
  simpl in *. rewrite outcome_bind in H. unfold call_resolver, returns in *.
  simpl in H. destruct (r ()) as [[env|]|]; [| |done]; simpl.
  - destruct env; eauto.
  - eauto.
Qed.

Lemma _resolve_envs_returns self :
  forallb returns (env_resolvers self) = true ->
  _resolve_envs self
  = (EvResolve <$> env_resolvers self,
     Some (Ok (active_envs (env_resolvers self) ++ ["user"]))).
Proof.
  intros H. unfold _resolve_envs. rewrite (collect_envs_returns _ _ H).
  rewrite bind_ok. unfold mret, M_ret, trace, outcome. simpl.
  by rewrite app_nil_r.
Qed.

Lemma _resolve_envs_ok_inv self envs :
  outcome (_resolve_envs self) = Some (Ok envs) ->
  forallb returns (env_resolvers self) = true.
Proof.
  unfold _resolve_envs. rewrite outcome_bind.
  destruct (outcome (collect_envs (env_resolvers self) [])) as [[envs'|]|] eqn:H;
    [|done..].
  intros _. by eapply collect_envs_ok_inv.
Qed.

(** ** One level of the base chain *)

(** The metadata [_do_retrieve_card] has in hand when it looks for
    ['base']: the record of [name] with the records of its environments
    merged in. *)
Definition resolve_level (self : StandardAssetStore) (name : string)
    (envs : list string) : M Metadata :=
  metadata ← _get_metadata self name;
  merge_env_metadata self name envs metadata.

Lemma merge_env_metadata_returns self name envs metadata :
  is_Some (outcome (merge_env_metadata self name envs metadata)).
Proof.
  revert metadata. induction envs as [|env rest IH]; intros metadata.
  - by eexists.
  - destruct (_get_metadata_returns (env_name name env) self) as [[record|e] Hget].
    + destruct (record !! "name") as [v|] eqn:Hname.
      * rewrite (merge_env_found _ _ _ _ _ _ _ Hget Hname). apply IH.
      * rewrite (merge_env_no_name _ _ _ _ _ _ Hget Hname). by eexists.
    + destruct e;
        try (rewrite (merge_env_error _ _ _ _ _ _ Hget) by done; by eexists).
      rewrite (merge_env_not_found _ _ _ _ _ _ Hget). apply IH.
Qed.

Lemma resolve_level_returns self name envs :
  is_Some (outcome (resolve_level self name envs)).
Proof.
  unfold resolve_level. rewrite outcome_bind.
  destruct (_get_metadata_returns name self) as [[md|e] ->]; [|by eexists].
  apply merge_env_metadata_returns.
Qed.

(** Unfold one frame of [_do_retrieve_card] and gather what it does
    before it looks for ['base'] into [resolve_level]. *)
Ltac open_level :=
  simpl; rewrite <- bind_assoc;
  match goal with
  | |- context [_get_metadata ?s ?n ≫= merge_env_metadata ?s ?n ?es] =>
      change (_get_metadata s n ≫= merge_env_metadata s n es)
        with (resolve_level s n es)
  end.

Section level.
Variables (self : StandardAssetStore) (name : string) (envs : list string).

Lemma _do_retrieve_card_failed depth e :
  outcome (resolve_level self name envs) = Some (Raise e) ->
  _do_retrieve_card (S depth) self name envs
  = (trace (resolve_level self name envs), Some (Raise e)).
Proof.
  intros H. open_level.
  destruct (resolve_level self name envs) as [t r].
  change (r = Some (Raise e)) in H. by subst r.
Qed.

Lemma _do_retrieve_card_no_base depth metadata :
  outcome (resolve_level self name envs) = Some (Ok metadata) ->
  truthy (default VNone (metadata !! "base")) = false ->
  _do_retrieve_card (S depth) self name envs
  = (trace (resolve_level self name envs),
     Some (Ok (mkAssetCard metadata None))).
Proof.
  intros H Hfalsy. open_level.
  destruct (resolve_level self name envs) as [t r].
  change (r = Some (Ok metadata)) in H. subst r.
  rewrite bind_ok, Hfalsy. unfold trace, outcome, mret, M_ret. simpl.
  by rewrite app_nil_r.
Qed.

Lemma _do_retrieve_card_bad_base depth metadata base_name :
  outcome (resolve_level self name envs) = Some (Ok metadata) ->
  metadata !! "base" = Some base_name ->
  truthy base_name = true -> is_str base_name = false ->
  _do_retrieve_card (S depth) self name envs
  = (trace (resolve_level self name envs),
     Some (Raise (AssetCardError (base_type_message name base_name)))).
Proof.
  intros H Hbase Htruthy Hstr. open_level.
  destruct (resolve_level self name envs) as [t r].
  change (r = Some (Ok metadata)) in H. subst r.
  rewrite bind_ok, Hbase. simpl. rewrite Htruthy.
  unfold trace, outcome, raise.
  destruct base_name; try done; simpl; by rewrite app_nil_r.
Qed.

Lemma _do_retrieve_card_base depth metadata base :
  outcome (resolve_level self name envs) = Some (Ok metadata) ->
  metadata !! "base" = Some (VStr base) -> truthy (VStr base) = true ->
  _do_retrieve_card (S depth) self name envs
  = (trace (resolve_level self name envs)
       ++ trace (_do_retrieve_card depth self base envs),
     match outcome (_do_retrieve_card depth self base envs) with
     | Some (Ok base_card) => Some (Ok (mkAssetCard metadata (Some base_card)))
     | Some (Raise e) => Some (Raise e)
     | None => None
     end).
Proof.
  intros H Hbase Htruthy. open_level.
  destruct (resolve_level self name envs) as [t r].
  change (r = Some (Ok metadata)) in H. subst r.
  rewrite bind_ok, Hbase. simpl default. rewrite Htruthy.
  destruct (_do_retrieve_card depth self base envs) as [t' [[c|e]|]];
    rewrite ?bind_ok, ?bind_raise, ?bind_too_deep;
    unfold trace, outcome, mret, M_ret; simpl; by rewrite ?app_nil_r.
Qed.
End level.

Lemma resolve_level_ok self name envs record :
  outcome (_get_metadata self name) = Some (Ok record) ->
  outcome (resolve_level self name envs)
  = outcome (merge_env_metadata self name envs record).
Proof. intros H. unfold resolve_level. by rewrite outcome_bind, H. Qed.

Lemma resolve_level_ok_inv self name envs merged :
  outcome (resolve_level self name envs) = Some (Ok merged) ->
  exists record,
    outcome (_get_metadata self name) = Some (Ok record) /\
    outcome (merge_env_metadata self name envs record) = Some (Ok merged).
Proof.
  unfold resolve_level. rewrite outcome_bind.
  destruct (outcome (_get_metadata self name)) as [[record|]|]; [|done..].
  intros H. by exists record.
Qed.

(** A card that came back holds the merged metadata of its level. *)
Lemma _do_retrieve_card_ok_inv depth self name envs card :
  outcome (_do_retrieve_card depth self name envs) = Some (Ok card) ->
  outcome (resolve_level self name envs) = Some (Ok (card_metadata card)).
Proof.
  destruct depth as [|depth]; [done|]. intros H.
  destruct (resolve_level_returns self name envs) as [[md|e] Hlevel].
  - destruct (truthy (default VNone (md !! "base"))) eqn:Htruthy.
    + destruct (md !! "base") as [base_name|] eqn:Hbase; [|done].
      destruct (is_str base_name) eqn:Hstr.
      * destruct base_name as [| | |base| |]; try done.
        rewrite (_do_retrieve_card_base _ _ _ _ _ _ Hlevel Hbase Htruthy) in H.
        unfold outcome at 1 in H. simpl in H.
        destruct (outcome (_do_retrieve_card depth self base envs)) as [[c|]|];
          [|done..].
        injection H as <-. done.
      * by rewrite (_do_retrieve_card_bad_base _ _ _ _ _ _ Hlevel Hbase Htruthy Hstr) in H.
    + rewrite (_do_retrieve_card_no_base _ _ _ _ _ Hlevel Htruthy) in H.
      injection H as <-. done.
  - by rewrite (_do_retrieve_card_failed _ _ _ _ _ Hlevel) in H.
Qed.

(** ** Provider search order *)

Definition record_of (name : string) (source : Z) : Metadata :=
  {[ "name" := VStr name; "source" := VInt source ]}.

Definition global_first : AssetMetadataProvider :=
  table_provider [("m", record_of "m" 1); ("g", record_of "g" 1)].
Definition global_second : AssetMetadataProvider :=
  table_provider [("m", record_of "m" 2)].
Definition user_first : AssetMetadataProvider :=
  table_provider [("m", record_of "m" 3)].
Definition user_second : AssetMetadataProvider :=
  table_provider [("other", record_of "other" 4)].

(** Two providers in each scope, added in the order their names say. *)
Definition layered_store : StandardAssetStore :=
  add_metadata_provider
    (add_metadata_provider
       (add_metadata_provider (__init__ global_first) user_first true)
       global_second false)
    user_second true.

(** C1.  [_get_metadata] goes through the user scope and then the global
    scope, each from the provider added last to the one added first.  The
    first provider that does not answer [AssetNotFoundError] ends the
    search: its record is returned as it is, after asking exactly the
    providers before it and itself.  When every provider of both scopes
    answers [AssetNotFoundError], all of them have been asked in that
    order and the store raises its own [AssetNotFoundError]. *)
Theorem C1_get_metadata_layered (self : StandardAssetStore) (name : string) :
  let order :=
    reverse (user_metadata_providers self) ++ reverse (metadata_providers self) in
  (forall pre provider post record,
      order = pre ++ provider :: post ->
      forallb (lacks name) pre = true ->
      get_metadata provider name = Ok record ->
      _get_metadata self name
      = (queries name (pre ++ [provider]), Some (Ok record)))
  /\ (forallb (lacks name) order = true ->
      _get_metadata self name
      = (queries name order,
         Some (Raise (AssetNotFoundError (not_found_message name))))).
Proof.
  intros order. split.
  - intros pre provider post record. apply _get_metadata_hit.
  - apply _get_metadata_absent.
Qed.

Lemma C1_get_metadata_layered_witness :
  _get_metadata layered_store "m"
  = ([EvGetMetadata user_second "m"; EvGetMetadata user_first "m"],
     Some (Ok (record_of "m" 3)))
  /\ _get_metadata layered_store "g"
     = ([EvGetMetadata user_second "g"; EvGetMetadata user_first "g";
         EvGetMetadata global_second "g"; EvGetMetadata global_first "g"],
        Some (Ok (record_of "g" 1)))
  /\ _get_metadata layered_store "absent"
     = (queries "absent" [user_second; user_first; global_second; global_first],
        Some (Raise (AssetNotFoundError
                       "An asset with the name 'absent' cannot be found."))).
Proof.
  split; [|split].
  - apply (proj1 (C1_get_metadata_layered layered_store "m")
             [user_second] user_first [global_second; global_first]);
      reflexivity.
  - apply (proj1 (C1_get_metadata_layered layered_store "g")
             [user_second; user_first; global_second] global_first []);
      reflexivity.
  - apply (proj2 (C1_get_metadata_layered layered_store "absent")).
    reflexivity.
Defined.

(** Whatever was registered before, a provider added to the user scope
    that has the record is the one that answers. *)
Lemma user_scope_wins self provider name record :
  get_metadata provider name = Ok record ->
  outcome (_get_metadata (add_metadata_provider self provider true) name)
  = Some (Ok record).
Proof.
  intros H. rewrite _get_metadata_search_order. unfold search_order. simpl.
  rewrite reverse_snoc.
  pose proof (first_found_hit name []
                (reverse (user_metadata_providers self)
                   ++ reverse (metadata_providers self))
                provider record eq_refl H) as Hhit.
  simpl in Hhit. simpl. rewrite Hhit. by rewrite outcome_bind.
Qed.

(** Within the global scope the provider added last answers, as long as
    the user scope has nothing under the name. *)
Lemma most_recent_global_wins self provider name record :
  forallb (lacks name) (user_metadata_providers self) = true ->
  get_metadata provider name = Ok record ->
  outcome (_get_metadata (add_metadata_provider self provider false) name)
  = Some (Ok record).
Proof.
  intros Huser H. rewrite _get_metadata_search_order. unfold search_order.
  simpl. rewrite reverse_snoc.
  rewrite (first_found_hit name _ _ provider record); [by rewrite outcome_bind| |done].
  rewrite forallb_forall in *. intros q Hq. apply Huser.
  apply list_elem_of_In. apply list_elem_of_In in Hq.
  by apply elem_of_reverse.
Qed.

(** ** Environment overrides *)

(** C2.  The records of the environments are merged over the record of
    the bare name field by field.  When the loop over [envs] comes
    through, a field other than ['name'] has in the merged metadata the
    value given by the last tag of [envs] whose record has the field, and
    a field that no environment record has keeps the value of the base
    record; the merged metadata is what every card returned for the name
    holds. *)
Theorem C2_env_overrides_field_by_field (self : StandardAssetStore)
    (name : string) (envs : list string) (base_record merged : Metadata)
    (key : string) :
  outcome (_get_metadata self name) = Some (Ok base_record) ->
  outcome (merge_env_metadata self name envs base_record) = Some (Ok merged) ->
  key <> "name" ->
  (forall pre env post record v,
      envs = pre ++ env :: post ->
      env_record self name env = Some record -> record !! key = Some v ->
      (forall env' record',
          env' ∈ post -> env_record self name env' = Some record' ->
          record' !! key = None) ->
      merged !! key = Some v)
  /\ ((forall env record,
          env ∈ envs -> env_record self name env = Some record ->
          record !! key = None) ->
      merged !! key = base_record !! key)
  /\ (forall depth card,
         outcome (_do_retrieve_card depth self name envs) = Some (Ok card) ->
         card_metadata card = merged).
Proof.
  intros Hbase Hmerged Hkey. split; [|split].
  - intros pre env post record v -> Hrecord Hv Hpost.
    by eapply merge_env_last_wins.
  - intros Hnone. by eapply merge_env_keeps_field.
  - intros depth card Hcard. apply _do_retrieve_card_ok_inv in Hcard.
    rewrite (resolve_level_ok _ _ _ _ Hbase) in Hcard. congruence.
Qed.

Lemma C2_env_overrides_field_by_field_witness :
  let merged : Metadata :=
    {[ "name" := VStr "m"; "a" := VInt 1; "b" := VInt 9 ]} in
  outcome (retrieve_card 1 prod_store "m") = Some (Ok (mkAssetCard merged None))
  /\ merged !! "a" = rec_m !! "a"
  /\ merged !! "b" = Some (VInt 9).
Proof.
  intros merged.
  assert (outcome (_get_metadata prod_store "m") = Some (Ok rec_m)) as Hbase
    by reflexivity.
  assert (outcome (merge_env_metadata prod_store "m" ["prod"; "user"] rec_m)
          = Some (Ok merged)) as Hmerged by reflexivity.
  split; [reflexivity|]. split.
  - assert ("a" <> "name") as Hkey by done.
    apply (proj1 (proj2 (C2_env_overrides_field_by_field
                           prod_store "m" ["prod"; "user"] rec_m merged "a"
                           Hbase Hmerged Hkey))).
    intros env record [->|[->|[]%elem_of_nil]%elem_of_cons]%elem_of_cons Hrecord.
    + injection Hrecord as <-. reflexivity.
    + discriminate Hrecord.
  - assert ("b" <> "name") as Hkey by done.
    apply (proj1 (C2_env_overrides_field_by_field
                    prod_store "m" ["prod"; "user"] rec_m merged "b"
                    Hbase Hmerged Hkey) [] "prod" ["user"] rec_m_prod);
      try reflexivity.
    intros env' record' ->%list_elem_of_singleton Hrecord.
    discriminate Hrecord.
Defined.

Definition rec_bare : Metadata := {[ "name" := VStr "m" ]}.
Definition rec_renamed : Metadata := {[ "name" := VStr "m@prod"; "c" := VInt 5 ]}.
Definition renamed_store : StandardAssetStore :=
  {| env_resolvers := [prod_resolver];
     metadata_providers :=
       [table_provider [("m", rec_bare); ("m@prod", rec_renamed)]];
     user_metadata_providers := [] |}.

(** C3.  Whatever records of environments were merged in, the ['name']
    field of the merged metadata, and so of every card returned for the
    name, is the ['name'] field of the record found under the bare
    name. *)
Theorem C3_env_name_never_overrides (self : StandardAssetStore)
    (name : string) (envs : list string) (base_record merged : Metadata) :
  outcome (_get_metadata self name) = Some (Ok base_record) ->
  outcome (merge_env_metadata self name envs base_record) = Some (Ok merged) ->
  merged !! "name" = base_record !! "name"
  /\ (forall depth card,
         outcome (_do_retrieve_card depth self name envs) = Some (Ok card) ->
         card_metadata card !! "name" = base_record !! "name").
Proof.
  intros Hbase Hmerged.
  pose proof (merge_env_keeps_name _ _ _ _ _ Hmerged) as Hname.
  split; [done|]. intros depth card Hcard.
  apply _do_retrieve_card_ok_inv in Hcard.
  rewrite (resolve_level_ok _ _ _ _ Hbase) in Hcard. congruence.
Qed.

Lemma C3_env_name_never_overrides_witness :
  let merged : Metadata := {[ "name" := VStr "m"; "c" := VInt 5 ]} in
  outcome (retrieve_card 1 renamed_store "m") = Some (Ok (mkAssetCard merged None))
  /\ env_record renamed_store "m" "prod" = Some rec_renamed
  /\ rec_renamed !! "name" = Some (VStr "m@prod")
  /\ merged !! "name" = Some (VStr "m").
Proof.
  intros merged. repeat (split; [reflexivity|]).
  apply (C3_env_name_never_overrides renamed_store "m" ["prod"; "user"]
           rec_bare merged); reflexivity.
Defined.

(** ** The entry point *)

Lemma retrieve_card_resolved depth self name envs :
  contains_at name = false ->
  outcome (_resolve_envs self) = Some (Ok envs) ->
  outcome (retrieve_card depth self name)
  = outcome (_do_retrieve_card depth self name envs).
Proof.
  intros Hname Henvs. unfold retrieve_card.
  by rewrite Hname, outcome_bind, Henvs.
Qed.

(** ["@" in name] holds exactly of the names with an ['@'] somewhere. *)
Lemma contains_at_spec name :
  contains_at name = true <-> exists pre post, name = pre +:+ "@" +:+ post.
Proof.
  split.
  - induction name as [|c rest IH]; [done|]. simpl.
    destruct (Ascii.eqb_spec c "@") as [->|_].
    + intros _. by exists "", rest.
    + intros [pre [post ->]]%IH. by exists (String c pre), post.
  - intros (pre & post & ->). induction pre as [|c pre IH]; [done|].
    simpl. by destruct (Ascii.eqb c "@").
Qed.

(** C9.  A name with an ['@'] in it is refused with [ValueError] before
    anything else happens: no environment resolver has been called and no
    provider has been asked for metadata. *)
Theorem C9_reserved_character (depth : nat) (self : StandardAssetStore)
    (name pre post : string) :
  name = pre +:+ "@" +:+ post ->
  retrieve_card depth self name = ([], Some (Raise (ValueError reserved_message))).
Proof.
  intros Hname. unfold retrieve_card.
  assert (contains_at name = true) as -> by (apply contains_at_spec; eauto).
  reflexivity.
Qed.

Lemma C9_reserved_character_witness :
  retrieve_card 5 layered_store "bad@name"
  = ([], Some (Raise (ValueError
                        "`name` must not contain the reserved '@' character."))).
Proof.
  apply (C9_reserved_character 5 layered_store "bad@name" "bad" "name").
  reflexivity.
Defined.

(** ** Not finding a record *)

Definition rec_plain : Metadata := {[ "name" := VStr "m"; "a" := VInt 1 ]}.
Definition plain_store : StandardAssetStore :=
  __init__ (table_provider [("m", rec_plain)]).

(** C5.  An [AssetNotFoundError] from the probe of [name@env] ends that
    turn of the loop and nothing else: the loop goes on to the next tag
    with the metadata as it was.  An [AssetNotFoundError] from the lookup
    of the bare name is what [retrieve_card] raises, and that is what
    happens when no provider of either scope has the name. *)
Theorem C5_not_found_policy (self : StandardAssetStore) (name : string) :
  (forall env rest metadata msg,
      outcome (_get_metadata self (env_name name env))
        = Some (Raise (AssetNotFoundError msg)) ->
      outcome (merge_env_metadata self name (env :: rest) metadata)
      = outcome (merge_env_metadata self name rest metadata))
  /\ (forall depth msg,
         contains_at name = false ->
         forallb returns (env_resolvers self) = true ->
         outcome (_get_metadata self name)
           = Some (Raise (AssetNotFoundError msg)) ->
         outcome (retrieve_card (S depth) self name)
         = Some (Raise (AssetNotFoundError msg)))
  /\ (forallb (lacks name)
        (reverse (user_metadata_providers self)
           ++ reverse (metadata_providers self)) = true ->
      outcome (_get_metadata self name)
      = Some (Raise (AssetNotFoundError (not_found_message name)))).
Proof.
  split; [|split].
  - intros env rest metadata msg H.
    by rewrite (merge_env_not_found _ _ _ _ _ _ H).
  - intros depth msg Hname Hresolvers H.
    rewrite (retrieve_card_resolved _ _ _ _ Hname
               (f_equal outcome (_resolve_envs_returns _ Hresolvers))).
    rewrite _do_retrieve_card_failed with (e := AssetNotFoundError msg); [done|].
    unfold resolve_level. by rewrite outcome_bind, H.
  - intros H. by rewrite (_get_metadata_absent name self H).
Qed.

Lemma C5_not_found_policy_witness :
  outcome (merge_env_metadata plain_store "m" ["user"] rec_plain)
    = Some (Ok rec_plain)
  /\ outcome (retrieve_card 1 plain_store "absent")
     = Some (Raise (AssetNotFoundError
                      "An asset with the name 'absent' cannot be found."))
  /\ outcome (_get_metadata plain_store "absent")
     = Some (Raise (AssetNotFoundError
                      "An asset with the name 'absent' cannot be found.")).
Proof.
  split; [|split].
  - rewrite (proj1 (C5_not_found_policy plain_store "m") "user" [] rec_plain
               "An asset with the name 'm@user' cannot be found.");
      reflexivity.
  - apply (proj1 (proj2 (C5_not_found_policy plain_store "absent")) 0);
      reflexivity.
  - apply (proj2 (proj2 (C5_not_found_policy plain_store "absent")));
      reflexivity.
Defined.

(** ** The ['base'] field *)

Definition falsy_base_store : StandardAssetStore :=
  __init__ (table_provider
              [("zero", {[ "name" := VStr "zero"; "base" := VInt 0 ]});
               ("empty", {[ "name" := VStr "empty"; "base" := VStr "" ]});
               ("false", {[ "name" := VStr "false"; "base" := VBool false ]})]).

Definition rec_list_base : Metadata :=
  {[ "name" := VStr "child"; "base" := VList [VStr "parent"] ]}.
Definition list_base_store : StandardAssetStore :=
  __init__ (table_provider
              [("child", rec_list_base);
               ("parent", {[ "name" := VStr "parent" ]})]).

(** C6, as the code has it.  When the merged metadata of a card has a
    ['base'] that is truthy and not a [str], resolving the card raises
    [AssetCardError] with a message that quotes the card's own name and
    the type found; this holds at whatever level of a base chain the card
    stands, and so for the card [retrieve_card] is asked for. *)
Theorem C6_truthy_non_str_base (depth : nat) (self : StandardAssetStore)
    (name : string) (envs : list string) (metadata : Metadata)
    (base_name : Value) :
  outcome (resolve_level self name envs) = Some (Ok metadata) ->
  metadata !! "base" = Some base_name ->
  truthy base_name = true ->
  is_str base_name = false ->
  outcome (_do_retrieve_card (S depth) self name envs)
  = Some (Raise (AssetCardError
       ("The value of the field 'base' of the asset card '" +:+ name +:+
        "' must be of type `<class 'str'>`, but is of type `" +:+
        type_repr base_name +:+ "` instead.")))
  /\ (contains_at name = false ->
      outcome (_resolve_envs self) = Some (Ok envs) ->
      outcome (retrieve_card (S depth) self name)
      = Some (Raise (AssetCardError (base_type_message name base_name)))).
Proof.
  intros Hlevel Hbase Htruthy Hstr.
  pose proof (_do_retrieve_card_bad_base _ _ _ depth _ _
                Hlevel Hbase Htruthy Hstr) as H.
  split.
  - by rewrite H.
  - intros Hname Henvs.
    by rewrite (retrieve_card_resolved _ _ _ _ Hname Henvs), H.
Qed.

Lemma C6_truthy_non_str_base_witness :
  outcome (retrieve_card 2 list_base_store "child")
  = Some (Raise (AssetCardError
       "The value of the field 'base' of the asset card 'child' must be of type `<class 'str'>`, but is of type `<class 'list'>` instead.")).
Proof.
  apply (C6_truthy_non_str_base 1 list_base_store "child" ["user"]
           rec_list_base (VList [VStr "parent"])); reflexivity.
Defined.

(** A ['base'] of [0] is not a [str], and yet the card comes back. *)
Lemma C6_falsy_base_counterexample :
  let metadata : Metadata := {[ "name" := VStr "zero"; "base" := VInt 0 ]} in
  outcome (resolve_level falsy_base_store "zero" ["user"]) = Some (Ok metadata)
  /\ metadata !! "base" = Some (VInt 0)
  /\ is_str (VInt 0) = false
  /\ outcome (retrieve_card 1 falsy_base_store "zero")
     = Some (Ok (mkAssetCard metadata None)).
Proof. repeat split. Qed.

(** C10.  When the ['base'] of the merged metadata is falsy, whatever its
    type, the card comes back without a parent and no error is raised:
    the type of ['base'] is only looked at when the value is truthy. *)
Theorem C10_falsy_base_is_no_base (depth : nat) (self : StandardAssetStore)
    (name : string) (envs : list string) (metadata : Metadata)
    (base_name : Value) :
  outcome (resolve_level self name envs) = Some (Ok metadata) ->
  metadata !! "base" = Some base_name ->
  truthy base_name = false ->
  outcome (_do_retrieve_card (S depth) self name envs)
  = Some (Ok (mkAssetCard metadata None))
  /\ (contains_at name = false ->
      outcome (_resolve_envs self) = Some (Ok envs) ->
      outcome (retrieve_card (S depth) self name)
      = Some (Ok (mkAssetCard metadata None))).
Proof.
  intros Hlevel Hbase Hfalsy.
  assert (truthy (default VNone (metadata !! "base")) = false) as Hfalsy'
    by (by rewrite Hbase).
  pose proof (_do_retrieve_card_no_base _ _ _ depth _ Hlevel Hfalsy') as H.
  split.
  - by rewrite H.
  - intros Hname Henvs.
    by rewrite (retrieve_card_resolved _ _ _ _ Hname Henvs), H.
Qed.

Lemma C10_falsy_base_is_no_base_witness :
  outcome (retrieve_card 1 falsy_base_store "zero")
  = Some (Ok (mkAssetCard {[ "name" := VStr "zero"; "base" := VInt 0 ]} None))
  /\ outcome (retrieve_card 1 falsy_base_store "empty")
     = Some (Ok (mkAssetCard {[ "name" := VStr "empty"; "base" := VStr "" ]} None))
  /\ outcome (retrieve_card 1 falsy_base_store "false")
     = Some (Ok (mkAssetCard
                   {[ "name" := VStr "false"; "base" := VBool false ]} None)).
Proof.
  split; [|split].
  - apply (proj2 (C10_falsy_base_is_no_base 0 falsy_base_store "zero" ["user"]
                    _ (VInt 0) eq_refl eq_refl eq_refl)); reflexivity.
  - apply (proj2 (C10_falsy_base_is_no_base 0 falsy_base_store "empty" ["user"]
                    _ (VStr "") eq_refl eq_refl eq_refl)); reflexivity.
  - apply (proj2 (C10_falsy_base_is_no_base 0 falsy_base_store "false" ["user"]
                    _ (VBool false) eq_refl eq_refl eq_refl)); reflexivity.
Defined.

(** ** The base chain *)

(** The name [_do_retrieve_card] goes on to after the level of [name],
    when it goes on: the ['base'] of the merged metadata, if that is a
    non-empty [str]. *)
Definition parent_name (self : StandardAssetStore) (envs : list string)
    (name : string) : option string :=
  match outcome (resolve_level self name envs) with
  | Some (Ok metadata) =>
      match default VNone (metadata !! "base") with
      | VStr base => if truthy (VStr base) then Some base else None
      | _ => None
      end
  | _ => None
  end.

(** [reaches_root self envs k name]: following ['base'] from [name] stops
    after [k] links, at a card that has no parent to go on to or fails
    on its own. *)
Inductive reaches_root (self : StandardAssetStore) (envs : list string)
  : nat -> string -> Prop :=
| reaches_root_here name :
    parent_name self envs name = None -> reaches_root self envs 0 name
| reaches_root_link k name base :
    parent_name self envs name = Some base ->
    reaches_root self envs k base ->
    reaches_root self envs (S k) name.

(** [base] is the base the card of [name] declares. *)
Definition has_base (self : StandardAssetStore) (envs : list string)
  : relation string :=
  fun name base => parent_name self envs name = Some base.

Section chain.
Variables (self : StandardAssetStore) (envs : list string).

Lemma parent_name_Some name base :
  parent_name self envs name = Some base ->
  exists metadata,
    outcome (resolve_level self name envs) = Some (Ok metadata) /\
    metadata !! "base" = Some (VStr base) /\ truthy (VStr base) = true.
Proof.
  unfold parent_name.
  destruct (outcome (resolve_level self name envs)) as [[metadata|]|];
    [|done..].
  destruct (metadata !! "base") as [[| | |b| |]|] eqn:Hbase; try done.
  destruct b as [|c b]; [done|]. simpl. intros [= <-].
  by exists metadata.
Qed.

(** A level that does not go on comes back in its own frame. *)
Lemma _do_retrieve_card_root depth name :
  parent_name self envs name = None ->
  is_Some (outcome (_do_retrieve_card (S depth) self name envs)).
Proof.
  unfold parent_name. intros H.
  destruct (resolve_level_returns self name envs) as [[md|e] Hlevel];
    rewrite Hlevel in H.
  - destruct (truthy (default VNone (md !! "base"))) eqn:Htruthy.
    + destruct (md !! "base") as [base_name|] eqn:Hbase; [|done].
      change (default VNone (Some base_name)) with base_name in *.
      assert (is_str base_name = false) as Hstr.
      { destruct base_name; try done. by rewrite Htruthy in H. }
      rewrite (_do_retrieve_card_bad_base _ _ _ _ _ _
                 Hlevel Hbase Htruthy Hstr).
      by eexists.
    + rewrite (_do_retrieve_card_no_base _ _ _ _ _ Hlevel Htruthy).
      by eexists.
  - rewrite (_do_retrieve_card_failed _ _ _ _ _ Hlevel). by eexists.
Qed.

(** A level that goes on comes back when the level of its base does,
    one frame further down. *)
Lemma _do_retrieve_card_link depth name base :
  parent_name self envs name = Some base ->
  is_Some (outcome (_do_retrieve_card (S depth) self name envs))
  <-> is_Some (outcome (_do_retrieve_card depth self base envs)).
Proof.
  intros (md & Hlevel & Hbase & Htruthy)%parent_name_Some.
  rewrite (_do_retrieve_card_base _ _ _ _ _ _ Hlevel Hbase Htruthy).
  unfold outcome at 1. simpl.
  destruct (outcome (_do_retrieve_card depth self base envs)) as [[c|e]|];
    split; intros [? ?]; by eauto.
Qed.

Lemma _do_retrieve_card_too_deep depth name base :
  parent_name self envs name = Some base ->
  outcome (_do_retrieve_card depth self base envs) = None ->
  outcome (_do_retrieve_card (S depth) self name envs) = None.
Proof.
  intros Hparent Hbase.
  pose proof (_do_retrieve_card_link depth _ _ Hparent) as [Hlink _].
  destruct (outcome (_do_retrieve_card (S depth) self name envs)); [|done].
  destruct Hlink as [? ?]; [by eexists|congruence].
Qed.

(** A name on a circle of bases stays on it one link further. *)
Lemma has_base_circle_next name base :
  tc (has_base self envs) name name ->
  has_base self envs name base ->
  tc (has_base self envs) base base.
Proof.
  unfold has_base. intros Hcircle Hbase.
  inversion Hcircle as [? ? Hstep|? next ? Hstep Hback]; subst.
  - assert (base = name) as -> by congruence. done.
  - assert (next = base) as -> by congruence.
    eapply tc_r; [exact Hback | exact Hbase].
Qed.

(** On a circle of bases every number of frames runs out. *)
Lemma _do_retrieve_card_circle depth name :
  tc (has_base self envs) name name ->
  outcome (_do_retrieve_card depth self name envs) = None.
Proof.
  revert name. induction depth as [|depth IH]; intros name Hcircle; [done|].
  assert (exists base, has_base self envs name base) as [base Hbase]
    by (inversion Hcircle; eauto).
  apply (_do_retrieve_card_too_deep _ _ base Hbase).
  apply IH. by eapply has_base_circle_next.
Qed.
End chain.

(** Once a call has come back, frames to spare change nothing. *)
Lemma _do_retrieve_card_stable depth depth' self name envs :
  is_Some (outcome (_do_retrieve_card depth self name envs)) ->
  (depth <= depth')%nat ->
  _do_retrieve_card depth' self name envs
  = _do_retrieve_card depth self name envs.
Proof.
  revert depth' name. induction depth as [|depth IH]; intros depth' name H Hle.
  - by destruct H.
  - destruct depth' as [|depth']; [lia|].
    destruct (resolve_level_returns self name envs) as [[md|e] Hlevel].
    + destruct (truthy (default VNone (md !! "base"))) eqn:Htruthy.
      * destruct (md !! "base") as [base_name|] eqn:Hbase; [|done].
        destruct (is_str base_name) eqn:Hstr.
        -- destruct base_name as [| | |base| |]; try done.
           rewrite (_do_retrieve_card_base _ _ _ depth _ _ Hlevel Hbase Htruthy)
             in H |- *.
           rewrite (_do_retrieve_card_base _ _ _ depth' _ _ Hlevel Hbase Htruthy).
           rewrite (IH depth' base); [done| |lia].
           unfold outcome at 1 in H. simpl in H.
           destruct (outcome (_do_retrieve_card depth self base envs));
             [by eexists | by destruct H].
        -- by rewrite !(_do_retrieve_card_bad_base _ _ _ _ _ _
                          Hlevel Hbase Htruthy Hstr).
      * by rewrite !(_do_retrieve_card_no_base _ _ _ _ _ Hlevel Htruthy).
    + by rewrite !(_do_retrieve_card_failed _ _ _ _ _ Hlevel).
Qed.

Definition cyclic_store : StandardAssetStore :=
  __init__ (table_provider
              [("A", {[ "name" := VStr "A"; "base" := VStr "B" ]});
               ("B", {[ "name" := VStr "B"; "base" := VStr "A" ]})]).

Definition rec_child : Metadata :=
  {[ "name" := VStr "child"; "base" := VStr "parent"; "x" := VInt 1 ]}.
Definition rec_parent : Metadata :=
  {[ "name" := VStr "parent"; "x" := VInt 2; "y" := VInt 3 ]}.
Definition chain_store : StandardAssetStore :=
  __init__ (table_provider [("child", rec_child); ("parent", rec_parent)]).

(** C7, as the code has it.  [_do_retrieve_card] keeps no record of the
    names it has been through.  It comes back, with a card or with an
    error, exactly when following ['base'] from the name stops after
    finitely many links, and it needs one nested frame for each link and
    one for the card the chain stops at.  When the name declares a base
    that, through bases of bases, declares the name again, no number of
    frames is enough and nothing is raised. *)
Theorem C7_returns_iff_chain_ends (depth : nat) (self : StandardAssetStore)
    (name : string) (envs : list string) :
  (is_Some (outcome (_do_retrieve_card depth self name envs))
   <-> exists k, (k < depth)%nat /\ reaches_root self envs k name)
  /\ (tc (has_base self envs) name name ->
      outcome (_do_retrieve_card depth self name envs) = None).
Proof.
  split; [split|].
  - revert name. induction depth as [|depth IH]; intros name H.
    + by destruct H.
    + destruct (parent_name self envs name) as [base|] eqn:Hparent.
      * apply (_do_retrieve_card_link _ _ _ _ _ Hparent) in H.
        destruct (IH _ H) as (k & Hk & Hreach).
        exists (S k). split; [lia|]. by eapply reaches_root_link.
      * exists 0%nat. split; [lia|]. by apply reaches_root_here.
  - intros (k & Hk & Hreach). revert depth Hk.
    induction Hreach as [name Hparent|k name base Hparent _ IH];
      intros [|depth] Hk; try lia.
    + by apply _do_retrieve_card_root.
    + apply (_do_retrieve_card_link _ _ _ _ _ Hparent). apply IH. lia.
  - apply _do_retrieve_card_circle.
Qed.

(** On [A -> B -> A] no depth is enough: nothing ever comes back, and in
    particular no [AssetCardError]. *)
Lemma C7_circular_base_counterexample :
  tc (has_base cyclic_store ["user"]) "A" "A"
  /\ ~ exists depth, is_Some (outcome (retrieve_card depth cyclic_store "A")).
Proof.
  assert (tc (has_base cyclic_store ["user"]) "A" "A") as Hcircle.
  { apply (tc_l _ "A" "B" "A"); [reflexivity|]. by apply tc_once. }
  split; [done|]. intros [depth H].
  rewrite (retrieve_card_resolved depth cyclic_store "A" ["user"]
             eq_refl eq_refl) in H.
  rewrite (_do_retrieve_card_circle _ _ _ _ Hcircle) in H. by destruct H.
Qed.

Lemma C7_returns_iff_chain_ends_witness :
  is_Some (outcome (_do_retrieve_card 2 chain_store "child" ["user"]))
  /\ outcome (_do_retrieve_card 7 cyclic_store "B" ["user"]) = None.
Proof.
  split.
  - apply (proj1 (C7_returns_iff_chain_ends 2 chain_store "child" ["user"])).
    exists 1%nat. split; [lia|].
    apply (reaches_root_link _ _ 0 "child" "parent"); [reflexivity|].
    apply reaches_root_here. reflexivity.
  - apply (proj2 (C7_returns_iff_chain_ends 7 cyclic_store "B" ["user"])).
    apply (tc_l _ "B" "A" "B"); [reflexivity|]. apply tc_once. reflexivity.
Defined.

(** The chain [child -> parent] of two cards takes two frames. *)
Example chain_store_two_frames :
  outcome (retrieve_card 2 chain_store "child")
  = Some (Ok (mkAssetCard rec_child (Some (mkAssetCard rec_parent None))))
  /\ outcome (retrieve_card 1 chain_store "child") = None
  /\ reaches_root chain_store ["user"] 1 "child".
Proof.
  repeat split.
  apply (reaches_root_link _ _ 0 "child" "parent"); [reflexivity|].
  by apply reaches_root_here.
Qed.

(** ** One list of environments for the whole chain *)

Definition is_query (ev : Event) : Prop :=
  match ev with EvGetMetadata _ _ => True | EvResolve _ => False end.

(** What a level asks the providers when nothing fails: the lookup of the
    bare name, then one lookup of [name@env] for each of [envs], in
    order. *)
Definition level_trace (self : StandardAssetStore) (envs : list string)
    (name : string) : list Event :=
  trace (_get_metadata self name)
    ++ concat ((fun env => trace (_get_metadata self (env_name name env)))
                 <$> envs).

(** [resolves self envs name card t]: [card] is the card of [name] with
    every card of its chain merged under [envs], and [t] is what was
    asked of the providers to build it, level after level. *)
Inductive resolves (self : StandardAssetStore) (envs : list string)
  : string -> AssetCard -> list Event -> Prop :=
| resolves_root name metadata :
    outcome (resolve_level self name envs) = Some (Ok metadata) ->
    truthy (default VNone (metadata !! "base")) = false ->
    resolves self envs name (mkAssetCard metadata None)
      (level_trace self envs name)
| resolves_base name metadata base base_card t :
    outcome (resolve_level self name envs) = Some (Ok metadata) ->
    metadata !! "base" = Some (VStr base) ->
    truthy (VStr base) = true ->
    resolves self envs base base_card t ->
    resolves self envs name (mkAssetCard metadata (Some base_card))
      (level_trace self envs name ++ t).

Section traces.
Variable self : StandardAssetStore.

Lemma first_found_queries providers name :
  Forall is_query (trace (first_found providers name)).
Proof.
  induction providers as [|p rest IH]; simpl; [by constructor|].
  rewrite trace_bind. apply Forall_app. split.
  - unfold call_get_metadata, except_not_found.
    destruct (get_metadata p name) as [?|[]]; by repeat constructor.
  - destruct (outcome _) as [[[?|]|]|]; by try constructor.
Qed.

Lemma _get_metadata_queries name :
  Forall is_query (trace (_get_metadata self name)).
Proof.
  unfold _get_metadata. rewrite trace_bind. apply Forall_app. split.
  - apply first_found_queries.
  - destruct (outcome _) as [[[?|]|]|]; try by constructor.
    rewrite trace_bind. apply Forall_app. split.
    + apply first_found_queries.
    + destruct (outcome _) as [[[?|]|]|]; by constructor.
Qed.

Lemma merge_env_metadata_queries name envs metadata :
  Forall is_query (trace (merge_env_metadata self name envs metadata)).
Proof.
  revert metadata. induction envs as [|env rest IH]; intros metadata;
    [by constructor|].
  pose proof (_get_metadata_queries (env_name name env)) as Hprobe.
  destruct (_get_metadata_returns (env_name name env) self) as [[record|e] Hget].
  - destruct (record !! "name") as [v|] eqn:Hname.
    + rewrite (merge_env_found _ _ _ _ _ _ _ Hget Hname).
      apply Forall_app. by split.
    + by rewrite (merge_env_no_name _ _ _ _ _ _ Hget Hname).
  - destruct e;
      try (by rewrite (merge_env_error _ _ _ _ _ _ Hget)).
    rewrite (merge_env_not_found _ _ _ _ _ _ Hget).
    apply Forall_app. by split.
Qed.

Lemma resolve_level_queries name envs :
  Forall is_query (trace (resolve_level self name envs)).
Proof.
  unfold resolve_level. rewrite trace_bind. apply Forall_app. split.
  - apply _get_metadata_queries.
  - destruct (outcome _) as [[?|]|]; try by constructor.
    apply merge_env_metadata_queries.
Qed.

(** Whatever comes of it, resolving a card only asks providers. *)
Lemma _do_retrieve_card_queries depth name envs :
  Forall is_query (trace (_do_retrieve_card depth self name envs)).
Proof.
  revert name. induction depth as [|depth IH]; intros name; [by constructor|].
  pose proof (resolve_level_queries name envs) as Hqueries.
  destruct (resolve_level_returns self name envs) as [[md|e] Hlevel].
  - destruct (truthy (default VNone (md !! "base"))) eqn:Htruthy.
    + destruct (md !! "base") as [base_name|] eqn:Hbase; [|done].
      destruct (is_str base_name) eqn:Hstr.
      * destruct base_name as [| | |base| |]; try done.
        rewrite (_do_retrieve_card_base _ _ _ _ _ _ Hlevel Hbase Htruthy).
        apply Forall_app. by split.
      * by rewrite (_do_retrieve_card_bad_base _ _ _ _ _ _
                      Hlevel Hbase Htruthy Hstr).
    + by rewrite (_do_retrieve_card_no_base _ _ _ _ _ Hlevel Htruthy).
  - by rewrite (_do_retrieve_card_failed _ _ _ _ _ Hlevel).
Qed.

(** A run of the loop that came back with metadata has probed every
    tag, in order. *)
Lemma merge_env_metadata_trace name envs metadata merged :
  outcome (merge_env_metadata self name envs metadata) = Some (Ok merged) ->
  trace (merge_env_metadata self name envs metadata)
  = concat ((fun env => trace (_get_metadata self (env_name name env)))
              <$> envs).
Proof.
  revert metadata. induction envs as [|env rest IH]; intros metadata H;
    [done|].
  rewrite fmap_cons. simpl concat.
  destruct (_get_metadata_returns (env_name name env) self) as [[record|e] Hget].
  - destruct (record !! "name") as [v|] eqn:Hname.
    + rewrite (merge_env_found _ _ _ _ _ _ _ Hget Hname) in H |- *.
      unfold trace at 1. simpl. f_equal. by eapply IH.
    + by rewrite (merge_env_no_name _ _ _ _ _ _ Hget Hname) in H.
  - destruct e;
      try (rewrite (merge_env_error _ _ _ _ _ _ Hget) in H; by try done).
    rewrite (merge_env_not_found _ _ _ _ _ _ Hget) in H |- *.
    unfold trace at 1. simpl. f_equal. by eapply IH.
Qed.

Lemma resolve_level_trace name envs metadata :
  outcome (resolve_level self name envs) = Some (Ok metadata) ->
  trace (resolve_level self name envs) = level_trace self envs name.
Proof.
  intros H. destruct (resolve_level_ok_inv _ _ _ _ H) as (record & Hget & Hmerge).
  unfold resolve_level, level_trace.
  rewrite (trace_bind_ok _ _ _ Hget). f_equal.
  by eapply merge_env_metadata_trace.
Qed.

(** A card that came back was built level by level under the one list
    [_do_retrieve_card] was given. *)
Lemma _do_retrieve_card_resolves depth name envs card :
  outcome (_do_retrieve_card depth self name envs) = Some (Ok card) ->
  resolves self envs name card (trace (_do_retrieve_card depth self name envs)).
Proof.
  revert name card. induction depth as [|depth IH]; intros name card H;
    [done|].
  destruct (resolve_level_returns self name envs) as [[md|e] Hlevel].
  - destruct (truthy (default VNone (md !! "base"))) eqn:Htruthy.
    + destruct (md !! "base") as [base_name|] eqn:Hbase; [|done].
      destruct (is_str base_name) eqn:Hstr.
      * destruct base_name as [| | |base| |]; try done.
        rewrite (_do_retrieve_card_base _ _ _ _ _ _ Hlevel Hbase Htruthy)
          in H |- *.
        unfold outcome at 1 in H. unfold trace at 1. simpl in *.
        destruct (outcome (_do_retrieve_card depth self base envs))
          as [[c|]|] eqn:Hsub; [|done..].
        injection H as <-. rewrite (resolve_level_trace _ _ _ Hlevel).
        eapply resolves_base; eauto.
      * by rewrite (_do_retrieve_card_bad_base _ _ _ _ _ _
                      Hlevel Hbase Htruthy Hstr) in H.
    + rewrite (_do_retrieve_card_no_base _ _ _ _ _ Hlevel Htruthy) in H |- *.
      injection H as <-. unfold trace at 1. simpl.
      rewrite (resolve_level_trace _ _ _ Hlevel).
      by apply resolves_root.
  - by rewrite (_do_retrieve_card_failed _ _ _ _ _ Hlevel) in H.
Qed.
End traces.

(** C8.  In a call of [retrieve_card] for a name without ['@'] whose
    resolvers come back, every environment resolver is called once, in
    registration order and before any provider is asked; whatever comes of
    the call, everything after that is lookups.  When the call comes back
    with a card, the card, its base, the base of its base and so on were
    all built under the one list those calls gave: at each level the
    providers were asked for the bare name and then for [name@env] for
    each [env] of that list, and the metadata of the level is their
    merge. *)
Theorem C8_one_env_list_for_the_chain (depth : nat) (self : StandardAssetStore)
    (name : string) :
  let envs := active_envs (env_resolvers self) ++ ["user"] in
  contains_at name = false ->
  forallb returns (env_resolvers self) = true ->
  exists t,
    trace (retrieve_card depth self name)
      = (EvResolve <$> env_resolvers self) ++ t
    /\ Forall is_query t
    /\ (forall card,
          outcome (retrieve_card depth self name) = Some (Ok card) ->
          resolves self envs name card t).
Proof.
  intros envs Hname Hresolvers. unfold retrieve_card. rewrite Hname.
  rewrite (_resolve_envs_returns _ Hresolvers), bind_ok.
  exists (trace (_do_retrieve_card depth self name envs)).
  split; [done|]. split; [apply _do_retrieve_card_queries|].
  intros card H. by apply _do_retrieve_card_resolves.
Qed.

Definition rec_parent_prod : Metadata :=
  {[ "name" := VStr "parent"; "y" := VInt 30 ]}.
Definition prod_chain_store : StandardAssetStore :=
  {| env_resolvers := [prod_resolver];
     metadata_providers :=
       [table_provider [("child", rec_child); ("parent", rec_parent);
                        ("parent@prod", rec_parent_prod)]];
     user_metadata_providers := [] |}.

Lemma C8_one_env_list_for_the_chain_witness :
  outcome (retrieve_card 2 prod_chain_store "child")
  = Some (Ok (mkAssetCard rec_child
                (Some (mkAssetCard
                         {[ "name" := VStr "parent"; "x" := VInt 2;
                            "y" := VInt 30 ]} None))))
  /\ exists t,
      trace (retrieve_card 2 prod_chain_store "child") = [EvResolve prod_resolver] ++ t
      /\ Forall is_query t
      /\ (forall card,
            outcome (retrieve_card 2 prod_chain_store "child") = Some (Ok card) ->
            resolves prod_chain_store ["prod"; "user"] "child" card t).
Proof.
  split; [reflexivity|].
  apply (C8_one_env_list_for_the_chain 2 prod_chain_store "child");
    reflexivity.
Defined.

(** ** The call of the asset listing *)

Definition unexpected_keyword_message (keyword : string) : string :=
  "StandardAssetStore.retrieve_card() got an unexpected keyword argument '"
    +:+ keyword +:+ "'".

Definition multiple_values_message : string :=
  "StandardAssetStore.retrieve_card() got multiple values for argument 'name'".

(** A call [store.retrieve_card(name, **kwargs)] against the signature
    [def retrieve_card(self, name: str)]: the body runs only when no
    keyword argument is left over.  The messages are those of CPython
    3.10 and later. *)
Definition call_retrieve_card (depth : nat) (self : StandardAssetStore)
    (name : string) (kwargs : list (string * Value)) : M AssetCard :=
  match kwargs with
  | [] => retrieve_card depth self name
  | (keyword, _) :: _ =>
      if String.eqb keyword "name" then raise (TypeError multiple_values_message)
      else raise (TypeError (unexpected_keyword_message keyword))
  end.

(** [name[:env_at]] with [env_at = name.find("@")], and [name] itself
    when there is no ['@']. *)
Fixpoint base_name_of (name : string) : string :=
  match name with
  | EmptyString => EmptyString
  | String c rest =>
      if Ascii.eqb c "@"%char then EmptyString else String c (base_name_of rest)
  end.

(** The call [AssetListCommandHandler._retrieve_assets] makes for each
    name it lists. *)
Definition _retrieve_assets_card (depth : nat) (self : StandardAssetStore)
    (name : string) : M AssetCard :=
  let base_name := base_name_of name in
  call_retrieve_card depth self base_name
    [("ignore_envs", VBool (String.eqb base_name name))].

Definition rec_m_user : Metadata := {[ "name" := VStr "m"; "b" := VInt 9 ]}.
Definition user_override_store : StandardAssetStore :=
  __init__ (table_provider [("m", rec_m); ("m@user", rec_m_user)]).

Definition sample_resolvers : list EnvironmentResolver :=
  [ (fun _ => Ok None); (fun _ => Ok (Some "prod"));
    (fun _ => Ok (Some "")); (fun _ => Ok (Some "dev")) ].

(** C4.  The list of environments is computed as specified: when every
    resolver comes back, [_resolve_envs] has called each once in
    registration order and yields their non-empty results in that order
    with ["user"] at the end.  The flag is not there: [retrieve_card]
    takes a name and nothing else, so the call of the asset listing, which
    passes [ignore_envs], raises [TypeError] before anything is resolved,
    and a plain call always probes the environments, here merging the
    record of [m@user] into the card of [m]. *)
Theorem C4_envs_and_missing_flag :
  (forall self,
      forallb returns (env_resolvers self) = true ->
      _resolve_envs self
      = (EvResolve <$> env_resolvers self,
         Some (Ok (concat (resolved_env <$> env_resolvers self) ++ ["user"]))))
  /\ active_envs sample_resolvers ++ ["user"] = ["prod"; "dev"; "user"]
  /\ (forall depth self name,
         _retrieve_assets_card depth self name
         = ([], Some (Raise (TypeError
              "StandardAssetStore.retrieve_card() got an unexpected keyword argument 'ignore_envs'"))))
  /\ outcome (retrieve_card 1 user_override_store "m")
     = Some (Ok (mkAssetCard
                   {[ "name" := VStr "m"; "a" := VInt 1; "b" := VInt 9 ]} None)).
Proof.
  split; [|split; [|split]].
  - apply _resolve_envs_returns.
  - reflexivity.
  - intros depth self name. reflexivity.
  - reflexivity.
Qed.


(** * More of the store *)

(** ** Registering providers *)

Lemma search_order_add_user self provider :
  search_order (add_metadata_provider self provider true)
  = provider :: search_order self.
Proof. unfold search_order. simpl. by rewrite reverse_snoc. Qed.

Lemma search_order_add_global self provider :
  search_order (add_metadata_provider self provider false)
  = reverse (user_metadata_providers self)
      ++ provider :: reverse (metadata_providers self).
Proof. unfold search_order. simpl. by rewrite reverse_snoc. Qed.

(** A provider without the record does not show in what a search finds. *)
Lemma first_found_skip name pre provider post :
  lacks name provider = true ->
  outcome (first_found (pre ++ provider :: post) name)
  = outcome (first_found (pre ++ post) name).
Proof.
  intros Hlacks. rewrite !first_found_app, !outcome_bind.
  destruct (outcome (first_found pre name)) as [[[md|]|]|]; try done.
  simpl. rewrite outcome_bind. unfold call_get_metadata, lacks in *.
  by destruct (get_metadata provider name) as [?|[]].
Qed.

Lemma forallb_lacks_reverse name providers :
  forallb (lacks name) providers = true ->
  forallb (lacks name) (reverse providers) = true.
Proof.
  rewrite !forallb_forall. intros H q Hq. apply H.
  apply list_elem_of_In. apply list_elem_of_In in Hq.
  by apply elem_of_reverse.
Qed.

(** X1.  A provider added to the user scope that has a record under a
    name answers every lookup of that name from then on, whatever was
    registered before in either scope, and it is the only provider
    asked. *)
Theorem X1_user_provider_added_last_answers (self : StandardAssetStore)
    (provider : AssetMetadataProvider) (name : string) (record : Metadata) :
  get_metadata provider name = Ok record ->
  _get_metadata (add_metadata_provider self provider true) name
  = ([EvGetMetadata provider name], Some (Ok record)).
Proof.
  intros H.
  apply (_get_metadata_hit name _ [] provider (search_order self));
    [apply search_order_add_user | done | done].
Qed.

Lemma X1_user_provider_added_last_answers_witness :
  _get_metadata (add_metadata_provider layered_store global_second true) "m"
  = ([EvGetMetadata global_second "m"], Some (Ok (record_of "m" 2))).
Proof.
  apply (X1_user_provider_added_last_answers layered_store global_second "m").
  reflexivity.
Defined.

(** X2.  A provider added to the global scope that has a record under a
    name answers the lookups of that name as long as no provider of the
    user scope has one: it comes before every provider the global scope
    had. *)
Theorem X2_global_provider_added_last_answers (self : StandardAssetStore)
    (provider : AssetMetadataProvider) (name : string) (record : Metadata) :
  forallb (lacks name) (user_metadata_providers self) = true ->
  get_metadata provider name = Ok record ->
  _get_metadata (add_metadata_provider self provider false) name
  = (queries name (reverse (user_metadata_providers self) ++ [provider]),
     Some (Ok record)).
Proof.
  intros Huser H.
  apply (_get_metadata_hit name _ _ provider (reverse (metadata_providers self)));
    [apply search_order_add_global | by apply forallb_lacks_reverse | done].
Qed.

Lemma X2_global_provider_added_last_answers_witness :
  _get_metadata (add_metadata_provider plain_store global_second false) "m"
  = ([EvGetMetadata global_second "m"], Some (Ok (record_of "m" 2))).
Proof.
  apply (X2_global_provider_added_last_answers plain_store global_second "m");
    reflexivity.
Defined.

(** X3.  Adding a provider that has no record under a name, to either
    scope, changes nothing about what a lookup of that name gives. *)
Theorem X3_provider_without_record_changes_nothing (self : StandardAssetStore)
    (provider : AssetMetadataProvider) (user : bool) (name : string) :
  lacks name provider = true ->
  outcome (_get_metadata (add_metadata_provider self provider user) name)
  = outcome (_get_metadata self name).
Proof.
  intros Hlacks. rewrite !_get_metadata_search_order, !outcome_bind.
  destruct user.
  - rewrite search_order_add_user.
    pose proof (first_found_skip name [] provider (search_order self) Hlacks)
      as Hskip.
    simpl app in Hskip. by rewrite Hskip.
  - rewrite search_order_add_global.
    by rewrite (first_found_skip name _ provider _ Hlacks).
Qed.

Lemma X3_provider_without_record_changes_nothing_witness :
  outcome (_get_metadata (add_metadata_provider layered_store user_second true) "m")
  = Some (Ok (record_of "m" 3)).
Proof.
  rewrite (X3_provider_without_record_changes_nothing
             layered_store user_second true "m"); reflexivity.
Defined.

(** ** Errors of collaborators *)

Definition broken_provider : AssetMetadataProvider :=
  {| get_metadata := fun _ => Raise (OtherError "malformed asset source") |}.

Definition failing_resolver : EnvironmentResolver :=
  fun _ => Raise (OtherError "no cluster").

(** X4.  An exception of a provider other than [AssetNotFoundError] ends
    the lookup there and then: it comes out of [_get_metadata] as it is,
    and the providers that would have been asked next, of either scope,
    are not asked. *)
Theorem X4_provider_error_ends_lookup (self : StandardAssetStore)
    (name : string) (pre post : list AssetMetadataProvider)
    (provider : AssetMetadataProvider) (e : Error) :
  reverse (user_metadata_providers self) ++ reverse (metadata_providers self)
    = pre ++ provider :: post ->
  forallb (lacks name) pre = true ->
  get_metadata provider name = Raise e ->
  (forall msg, e <> AssetNotFoundError msg) ->
  _get_metadata self name = (queries name (pre ++ [provider]), Some (Raise e)).
Proof.
  intros Horder Hpre Hraise Hother.
  rewrite _get_metadata_search_order. unfold search_order. rewrite Horder.
  rewrite (first_found_error name pre post provider e Hpre Hraise).
  - by rewrite bind_raise.
  - unfold lacks. rewrite Hraise. destruct e; try done. by destruct (Hother msg).
Qed.

Lemma X4_provider_error_ends_lookup_witness :
  _get_metadata (add_metadata_provider layered_store broken_provider true) "m"
  = ([EvGetMetadata broken_provider "m"],
     Some (Raise (OtherError "malformed asset source"))).
Proof.
  apply (X4_provider_error_ends_lookup _ "m" [] (search_order layered_store)
           broken_provider); done.
Defined.

Lemma collect_envs_raise pre resolver post envs e :
  forallb returns pre = true ->
  resolver () = Raise e ->
  collect_envs (pre ++ resolver :: post) envs
  = (EvResolve <$> (pre ++ [resolver]), Some (Raise e)).
Proof.
  revert envs. induction pre as [|r pre IH]; intros envs Hpre Hraise.
  - simpl. unfold call_resolver. by rewrite Hraise.
  - apply andb_prop in Hpre as [Hr Hpre]. simpl collect_envs.
    unfold call_resolver. unfold returns in Hr.
    destruct (r ()) as [[env|]|]; [| |done]; rewrite bind_ok.
    + destruct env as [|c env]; unfold trace, outcome; simpl;
        by rewrite (IH _ Hpre Hraise).
    + by rewrite (IH _ Hpre Hraise).
Qed.

(** X5.  An exception of an environment resolver is not caught: it comes
    out of [retrieve_card] as it is, the resolvers registered after the
    failing one are not called, and no provider is asked for anything. *)
Theorem X5_resolver_error_aborts (depth : nat) (self : StandardAssetStore)
    (name : string) (pre post : list EnvironmentResolver)
    (resolver : EnvironmentResolver) (e : Error) :
  contains_at name = false ->
  env_resolvers self = pre ++ resolver :: post ->
  forallb returns pre = true ->
  resolver () = Raise e ->
  retrieve_card depth self name
  = (EvResolve <$> (pre ++ [resolver]), Some (Raise e)).
Proof.
  intros Hname Hresolvers Hpre Hraise. unfold retrieve_card, _resolve_envs.
  rewrite Hname, Hresolvers, (collect_envs_raise _ _ _ _ _ Hpre Hraise).
  by rewrite !bind_raise.
Qed.

Lemma X5_resolver_error_aborts_witness :
  retrieve_card 3
    {| env_resolvers := [prod_resolver; failing_resolver; prod_resolver];
       metadata_providers := [global_first];
       user_metadata_providers := [] |} "m"
  = ([EvResolve prod_resolver; EvResolve failing_resolver],
     Some (Raise (OtherError "no cluster"))).
Proof.
  apply (X5_resolver_error_aborts 3 _ "m" [prod_resolver] [prod_resolver]
           failing_resolver); reflexivity.
Defined.

(** ** Errors of the merge and of the chain *)

Lemma merge_env_metadata_app self name envs1 envs2 metadata :
  merge_env_metadata self name (envs1 ++ envs2) metadata
  = merged ← merge_env_metadata self name envs1 metadata;
    merge_env_metadata self name envs2 merged.
Proof.
  revert metadata. induction envs1 as [|env rest IH]; intros metadata; simpl.
  - by rewrite bind_ret_l.
  - rewrite bind_assoc. apply bind_ext. intros r. apply IH.
Qed.

Definition rec_nameless : Metadata := {[ "b" := VInt 9 ]}.
Definition nameless_store : StandardAssetStore :=
  __init__ (table_provider [("m", rec_m); ("m@user", rec_nameless)]).

(** X6.  A record found for [name@env] that has no ['name'] field makes
    the resolution fail with [KeyError('name')]: [del] raises it, the
    [except AssetNotFoundError] around it does not catch it, and the tags
    after [env] are not probed. *)
Theorem X6_env_record_without_name (depth : nat) (self : StandardAssetStore)
    (name : string) (pre post : list string) (env : string)
    (base_record merged record : Metadata) :
  outcome (_get_metadata self name) = Some (Ok base_record) ->
  outcome (merge_env_metadata self name pre base_record) = Some (Ok merged) ->
  env_record self name env = Some record ->
  record !! "name" = None ->
  outcome (_do_retrieve_card (S depth) self name (pre ++ env :: post))
  = Some (Raise (KeyError "name")).
Proof.
  intros Hbase Hpre Hrecord Hname.
  rewrite _do_retrieve_card_failed with (e := KeyError "name"); [done|].
  rewrite (resolve_level_ok _ _ _ _ Hbase), merge_env_metadata_app.
  rewrite outcome_bind, Hpre. unfold env_record in Hrecord.
  destruct (outcome (_get_metadata self (env_name name env)))
    as [[record'|]|] eqn:Hget; try done.
  injection Hrecord as ->.
  by rewrite (merge_env_no_name _ _ _ _ _ _ Hget Hname).
Qed.

Lemma X6_env_record_without_name_witness :
  outcome (retrieve_card 1 nameless_store "m") = Some (Raise (KeyError "name")).
Proof.
  apply (X6_env_record_without_name 0 nameless_store "m" [] [] "user"
           rec_m rec_m rec_nameless); reflexivity.
Defined.

Definition dangling_store : StandardAssetStore :=
  __init__ (table_provider [("child", rec_child)]).

(** X7.  What goes wrong while the base of a card is resolved is what
    resolving the card raises.  In particular a ['base'] that names an
    asset no provider has makes the resolution of the card fail with the
    [AssetNotFoundError] of the base: the message names the base, not the
    card asked for. *)
Theorem X7_error_of_base_propagates (depth : nat) (self : StandardAssetStore)
    (name base : string) (envs : list string) :
  parent_name self envs name = Some base ->
  (forall e,
      outcome (_do_retrieve_card depth self base envs) = Some (Raise e) ->
      outcome (_do_retrieve_card (S depth) self name envs) = Some (Raise e))
  /\ (forallb (lacks base)
        (reverse (user_metadata_providers self)
           ++ reverse (metadata_providers self)) = true ->
      outcome (_do_retrieve_card (S (S depth)) self name envs)
      = Some (Raise (AssetNotFoundError
           ("An asset with the name '" +:+ base +:+ "' cannot be found.")))).
Proof.
  intros (md & Hlevel & Hbase & Htruthy)%parent_name_Some.
  assert (forall d e,
             outcome (_do_retrieve_card d self base envs) = Some (Raise e) ->
             outcome (_do_retrieve_card (S d) self name envs) = Some (Raise e))
    as Hup.
  { intros d e He.
    rewrite (_do_retrieve_card_base _ _ _ _ _ _ Hlevel Hbase Htruthy).
    unfold outcome at 1. simpl. by rewrite He. }
  split; [apply Hup|]. intros Habsent. apply Hup.
  rewrite _do_retrieve_card_failed
    with (e := AssetNotFoundError (not_found_message base)); [done|].
  unfold resolve_level.
  by rewrite outcome_bind, (_get_metadata_absent base self Habsent).
Qed.

Lemma X7_error_of_base_propagates_witness :
  outcome (retrieve_card 2 dangling_store "child")
  = Some (Raise (AssetNotFoundError
                   "An asset with the name 'parent' cannot be found.")).
Proof.
  apply (proj2 (X7_error_of_base_propagates 0 dangling_store "child" "parent"
                  ["user"] eq_refl)).
  reflexivity.
Defined.

(** ** The pseudo environment ["user"] *)

Definition rec_m_dev : Metadata :=
  {[ "name" := VStr "m"; "b" := VInt 5; "c" := VInt 7 ]}.
Definition dev_user_store : StandardAssetStore :=
  {| env_resolvers := [fun _ => Ok (Some "dev")];
     metadata_providers :=
       [table_provider [("m", rec_m); ("m@dev", rec_m_dev);
                        ("m@user", rec_m_user)]];
     user_metadata_providers := [] |}.

(** X8.  ["user"] is appended after the results of the resolvers, so it
    is merged last: a field other than ['name'] that the record of
    [name@user] has is the one the card gets, whatever the records of the
    environments the resolvers named say. *)
Theorem X8_user_record_is_merged_last (depth : nat) (self : StandardAssetStore)
    (name : string) (record : Metadata) (key : string) (v : Value)
    (card : AssetCard) :
  env_record self name "user" = Some record ->
  record !! key = Some v ->
  key <> "name" ->
  outcome (retrieve_card depth self name) = Some (Ok card) ->
  card_metadata card !! key = Some v.
Proof.
  intros Hrecord Hv Hkey Hcard. unfold retrieve_card in Hcard.
  destruct (contains_at name); [done|]. rewrite outcome_bind in Hcard.
  destruct (outcome (_resolve_envs self)) as [[envs|]|] eqn:Henvs; [|done..].
  pose proof (_resolve_envs_returns _ (_resolve_envs_ok_inv _ _ Henvs)) as Hres.
  rewrite Hres in Henvs. injection Henvs as <-.
  apply _do_retrieve_card_ok_inv, resolve_level_ok_inv in Hcard
    as (base_record & _ & Hmerged).
  eapply (merge_env_last_wins _ _ _ "user" []); eauto.
  by intros env' record' ?%elem_of_nil.
Qed.

Lemma X8_user_record_is_merged_last_witness :
  env_record dev_user_store "m" "dev" = Some rec_m_dev
  /\ rec_m_dev !! "b" = Some (VInt 5)
  /\ outcome (retrieve_card 1 dev_user_store "m")
     = Some (Ok (mkAssetCard
                   {[ "name" := VStr "m"; "a" := VInt 1; "b" := VInt 9;
                      "c" := VInt 7 ]} None))
  /\ ({[ "name" := VStr "m"; "a" := VInt 1; "b" := VInt 9;
         "c" := VInt 7 ]} : Metadata) !! "b" = Some (VInt 9).
Proof.
  repeat (split; [reflexivity|]).
  apply (X8_user_record_is_merged_last 1 dev_user_store "m" rec_m_user "b"
           (VInt 9) (mkAssetCard _ None)); done.
Defined.

(** The probe of [name@env] raises [AssetNotFoundError]. *)
Definition probe_not_found (self : StandardAssetStore) (name env : string)
  : bool :=
  match outcome (_get_metadata self (env_name name env)) with
  | Some (Raise (AssetNotFoundError _)) => true
  | _ => false
  end.

Lemma merge_env_metadata_no_records self name envs metadata :
  forallb (probe_not_found self name) envs = true ->
  outcome (merge_env_metadata self name envs metadata) = Some (Ok metadata).
Proof.
  induction envs as [|env rest IH]; [done|].
  intros [Henv Hrest]%andb_prop. unfold probe_not_found in Henv.
  destruct (outcome (_get_metadata self (env_name name env)))
    as [[?|[]]|] eqn:Hget; try done.
  rewrite (merge_env_not_found _ _ _ _ _ _ Hget). by apply IH.
Qed.

(** X9.  A name that has no record for any active environment and whose
    record declares no base resolves to a card that holds the record as
    the provider gave it, without a parent. *)
Theorem X9_plain_record_is_the_card (depth : nat) (self : StandardAssetStore)
    (name : string) (record : Metadata) :
  contains_at name = false ->
  forallb returns (env_resolvers self) = true ->
  outcome (_get_metadata self name) = Some (Ok record) ->
  forallb (probe_not_found self name)
    (active_envs (env_resolvers self) ++ ["user"]) = true ->
  truthy (default VNone (record !! "base")) = false ->
  outcome (retrieve_card (S depth) self name)
  = Some (Ok (mkAssetCard record None)).
Proof.
  intros Hname Hresolvers Hrecord Hprobes Hbase.
  rewrite (retrieve_card_resolved _ _ _ _ Hname
             (f_equal outcome (_resolve_envs_returns _ Hresolvers))).
  rewrite (_do_retrieve_card_no_base _ _ _ _ record); [done| |done].
  rewrite (resolve_level_ok _ _ _ _ Hrecord).
  by apply merge_env_metadata_no_records.
Qed.

Lemma X9_plain_record_is_the_card_witness :
  outcome (retrieve_card 1 plain_store "m") = Some (Ok (mkAssetCard rec_plain None)).
Proof.
  apply (X9_plain_record_is_the_card 0 plain_store "m" rec_plain); reflexivity.
Defined.

(** ** The names the asset listing asks for *)

Lemma base_name_of_no_at name : contains_at (base_name_of name) = false.
Proof.
  induction name as [|c rest IH]; [done|]. simpl.
  destruct (Ascii.eqb c "@") eqn:Hc; [done|]. simpl. by rewrite Hc.
Qed.

Lemma base_name_of_id name :
  contains_at name = false -> base_name_of name = name.
Proof.
  induction name as [|c rest IH]; [done|]. simpl.
  destruct (Ascii.eqb c "@"); [done|]. intros H. by rewrite IH.
Qed.

(** X10.  The name [_retrieve_assets] asks the store for never has an
    ['@'] in it, so the store's check of the reserved character cannot
    turn a listed name down.  A listed name without ['@'] is asked for as
    it is, and a listed name with one is asked for by what stands before
    its first ['@']; the flag passed along, [base_name == name], tells
    the two apart. *)
Theorem X10_listing_asks_for_bare_names (name : string) :
  contains_at (base_name_of name) = false
  /\ (contains_at name = false -> base_name_of name = name)
  /\ (contains_at name = true ->
      exists env, name = base_name_of name +:+ "@" +:+ env)
  /\ String.eqb (base_name_of name) name = negb (contains_at name).
Proof.
  split; [apply base_name_of_no_at|]. split; [apply base_name_of_id|]. split.
  - induction name as [|c rest IH]; [done|]. simpl.
    destruct (Ascii.eqb_spec c "@") as [->|_].
    + intros _. by exists rest.
    + intros [env Henv]%IH. exists env.
      change (String c rest = String c (base_name_of rest +:+ "@" +:+ env)).
      by f_equal.
  - destruct (contains_at name) eqn:Hat; simpl.
    + apply String.eqb_neq. intros Heq.
      pose proof (base_name_of_no_at name) as Hno. rewrite Heq in Hno.
      congruence.
    + rewrite base_name_of_id by done. apply String.eqb_refl.
Qed.

Lemma X10_listing_asks_for_bare_names_witness :
  base_name_of "m" = "m"
  /\ exists env, "m@prod@x" = base_name_of "m@prod@x" +:+ "@" +:+ env.
Proof.
  split.
  - apply (proj1 (proj2 (X10_listing_asks_for_bare_names "m"))). reflexivity.
  - apply (proj1 (proj2 (proj2 (X10_listing_asks_for_bare_names "m@prod@x")))).
    reflexivity.
Defined.


(** * The asset listing: [src/fairseq2/recipes/assets.py] *)

From Stdlib Require Import Sorting.Sorted.

(** ** [list.sort(key=...)] *)

(** Python's sort is stable and ascending in the keys; any such sort
    gives the same list, here built by inserting from the right, each
    element in front of the first one whose key is not smaller. *)
Section stable_sort.
Context {A K : Type} (le : K -> K -> bool) (key : A -> K).

Fixpoint insert_by_key (x : A) (l : list A) : list A :=
  match l with
  | [] => [x]
  | y :: rest =>
      if le (key x) (key y) then x :: y :: rest
      else y :: insert_by_key x rest
  end.

Definition stable_sort (l : list A) : list A := foldr insert_by_key [] l.

Lemma insert_by_key_Permutation x l : insert_by_key x l ≡ₚ x :: l.
Proof.
  induction l as [|y rest IH]; simpl; [done|].
  destruct (le (key x) (key y)); [done|].
  rewrite IH. apply Permutation_swap.
Qed.

Lemma stable_sort_Permutation l : stable_sort l ≡ₚ l.
Proof.
  induction l as [|x rest IH]; simpl; [done|].
  by rewrite insert_by_key_Permutation, IH.
Qed.

Definition key_le (a b : A) : Prop := le (key a) (key b) = true.

Hypothesis le_total : forall a b, le a b = true \/ le b a = true.

Lemma insert_by_key_Sorted x l :
  Sorted key_le l -> Sorted key_le (insert_by_key x l).
Proof.
  induction 1 as [|y rest Hsorted IH Hhd]; simpl.
  - by repeat constructor.
  - destruct (le (key x) (key y)) eqn:Hle.
    + constructor; [by constructor|]. by constructor.
    + constructor; [done|].
      assert (key_le y x) as Hyx
        by (destruct (le_total (key y) (key x)); [done|congruence]).
      destruct Hhd as [|z rest' Hyz]; simpl; [by constructor|].
      destruct (le (key x) (key z)); by constructor.
Qed.

Lemma stable_sort_Sorted l : Sorted key_le (stable_sort l).
Proof.
  induction l as [|x rest IH]; simpl; [constructor|].
  by apply insert_by_key_Sorted.
Qed.

Context `{EqDecision K}.

Lemma insert_by_key_filter k x l :
  filter (fun a => key a = k) (insert_by_key x l)
  = filter (fun a => key a = k) (x :: l).
Proof.
  induction l as [|y rest IH]; simpl; [done|].
  destruct (le (key x) (key y)) eqn:Hle; [done|].
  rewrite filter_cons, IH, !filter_cons.
  destruct (decide (key y = k)) as [Hy|Hy], (decide (key x = k)) as [Hx|Hx];
    try done.
  destruct (le_total (key x) (key x)); congruence.
Qed.

(** Elements of equal keys stay in the order they had. *)
Lemma stable_sort_stable k l :
  filter (fun a => key a = k) (stable_sort l) = filter (fun a => key a = k) l.
Proof.
  induction l as [|x rest IH]; simpl; [done|].
  by rewrite insert_by_key_filter, !filter_cons, IH.
Qed.

Lemma filter_key_all k l :
  Forall (fun a => key a = k) l -> filter (fun a => key a = k) l = l.
Proof.
  induction 1 as [|x rest Hx _ IH]; [done|].
  by rewrite filter_cons_True, IH.
Qed.

(** A list whose elements all have the same key is left as it is. *)
Lemma stable_sort_one_key k l :
  Forall (fun a => key a = k) l -> stable_sort l = l.
Proof.
  intros Hall. pose proof (stable_sort_stable k l) as Hstable.
  rewrite (filter_key_all k l Hall) in Hstable.
  transitivity (filter (fun a => key a = k) (stable_sort l)); [|done].
  symmetry. apply filter_key_all.
  apply Forall_forall. intros a Ha%list_elem_of_In.
  rewrite stable_sort_Permutation in Ha.
  rewrite Forall_forall in Hall. by apply Hall, list_elem_of_In.
Qed.
End stable_sort.

(** ** [_dump_assets] *)

Inductive ListingError : Type :=
| IndexError (msg : string).

(** [e[0]] of a [str], where there is one.  A [string] is a sequence of
    8-bit characters, so this is the first character of a name written in
    ASCII (or Latin-1), as asset names are. *)
Definition first_char (e : string) : option ascii :=
  match e with
  | EmptyString => None
  | String c _ => Some c
  end.

(** The order of the keys [e[0]]: one-character strings compare as their
    characters do. *)
Definition first_char_le (a b : option ascii) : bool :=
  match a, b with
  | Some x, Some y => Ascii.leb x y
  | None, _ => true
  | Some _, None => false
  end.

Definition index_error : ListingError :=
  IndexError "string index out of range".

(** [names.sort(key=lambda e: e[0])]: the key of every name is taken
    before anything is moved, and an empty name has none. *)
Definition sort_names (names : list string) : ListingError + list string :=
  if forallb (fun e => bool_decide (is_Some (first_char e))) names
  then inr (stable_sort first_char_le first_char names)
  else inl index_error.

(** [assets.sort(key=lambda e: e[0])] *)
Definition sort_assets (assets : list (string * list string))
  : list (string * list string) :=
  stable_sort String.leb fst assets.

(** What the body of the loop prints for one source. *)
Definition group_lines (source : string) (names : list string) : list string :=
  ("  " +:+ source) :: ((fun name => "   - " +:+ name) <$> names) ++ [""].

(** The loop of [_dump_assets]: the lines printed, and the exception that
    ended it if one did. *)
Fixpoint dump_sources (assets : list (string * list string))
  : list string * option ListingError :=
  match assets with
  | [] => ([], None)
  | (source, names) :: rest =>
      match sort_names names with
      | inl e => ([], Some e)
      | inr names =>
          let '(lines, r) := dump_sources rest in
          (group_lines source names ++ lines, r)
      end
  end.

(** [_dump_assets], from the list [_retrieve_assets] returned on. *)
Definition _dump_assets (assets : list (string * list string))
  : list string * option ListingError :=
  match assets with
  | [] => (["  n/a"], None)
  | _ :: _ => dump_sources (sort_assets assets)
  end.

Lemma first_char_le_total a b :
  first_char_le a b = true \/ first_char_le b a = true.
Proof. destruct a, b; simpl; auto. apply Ascii.leb_total. Qed.

Lemma sort_names_empty_name names :
  "" ∈ names -> sort_names names = inl index_error.
Proof.
  intros Hin. unfold sort_names.
  destruct (forallb _ names) eqn:Hall; [|done].
  rewrite forallb_forall in Hall. apply list_elem_of_In, Hall in Hin.
  by apply bool_decide_eq_true in Hin as [? ?].
Qed.

Lemma sort_names_no_empty_name names :
  "" ∉ names ->
  sort_names names = inr (stable_sort first_char_le first_char names).
Proof.
  intros Hnotin. unfold sort_names.
  destruct (forallb _ names) eqn:Hall; [done|].
  apply not_true_iff_false in Hall. destruct Hall.
  apply forallb_forall. intros e He%list_elem_of_In.
  apply bool_decide_eq_true. destruct e; [done|by eexists].
Qed.

(** X11.  The names listed under a source are ordered by their first
    character and by nothing else: the sort keeps every name, puts the
    first characters in ascending order and leaves names that start with
    the same character in the order they were retrieved in, so names that
    all start alike are printed in the order retrieved.  An empty name
    makes the sort raise [IndexError]. *)
Theorem X11_names_ordered_by_first_character_only (names : list string) :
  ("" ∈ names -> sort_names names = inl index_error)
  /\ ("" ∉ names ->
      exists sorted,
        sort_names names = inr sorted
        /\ sorted ≡ₚ names
        /\ Sorted (fun a b => first_char_le (first_char a) (first_char b) = true)
             sorted
        /\ (forall c,
               filter (fun e => first_char e = c) sorted
               = filter (fun e => first_char e = c) names)
        /\ (forall c, Forall (fun e => first_char e = c) names -> sorted = names)).
Proof.
  split; [apply sort_names_empty_name|]. intros Hnotin.
  exists (stable_sort first_char_le first_char names).
  split; [by apply sort_names_no_empty_name|].
  split; [apply stable_sort_Permutation|].
  split; [apply (stable_sort_Sorted _ _ first_char_le_total)|].
  split.
  - intros c. apply (stable_sort_stable _ _ first_char_le_total).
  - intros c. apply (stable_sort_one_key _ _ first_char_le_total).
Qed.

Lemma X11_names_ordered_by_first_character_only_witness :
  sort_names ["mistral"; "llama3"; "nllb"; "llama2"; "m2m"]
  = inr ["llama3"; "llama2"; "mistral"; "m2m"; "nllb"]
  /\ sort_names ["llama3"; ""] = inl index_error
  /\ exists sorted,
      sort_names ["s2t_b"; "s2t_a"] = inr sorted /\ sorted = ["s2t_b"; "s2t_a"].
Proof.
  split; [reflexivity|]. split.
  - apply (proj1 (X11_names_ordered_by_first_character_only ["llama3"; ""])).
    by repeat constructor.
  - destruct (proj2 (X11_names_ordered_by_first_character_only
                       ["s2t_b"; "s2t_a"]))
      as (sorted & Hsorted & _ & _ & _ & Hsame).
    + by intros [?|[?|?%elem_of_nil]%elem_of_cons]%elem_of_cons.
    + exists sorted. split; [done|].
      apply (Hsame (Some "s"%char)). by repeat constructor.
Defined.

(** A source with its names in the order they are printed in. *)
Definition printed_group (group : string * list string) : string * list string :=
  (group.1, stable_sort first_char_le first_char group.2).

Definition source_le (a b : string * list string) : Prop :=
  String.leb a.1 b.1 = true.

Lemma dump_sources_no_empty_name assets :
  Forall (fun group => "" ∉ group.2) assets ->
  dump_sources assets
  = (concat ((fun group => group_lines group.1 group.2)
               <$> (printed_group <$> assets)), None).
Proof.
  induction 1 as [|[source names] rest Hnames _ IH]; [done|].
  simpl in *. rewrite (sort_names_no_empty_name _ Hnames), IH. done.
Qed.

Lemma dump_sources_empty_name pre group post :
  Forall (fun group => "" ∉ group.2) pre ->
  "" ∈ group.2 ->
  dump_sources (pre ++ group :: post)
  = (concat ((fun group => group_lines group.1 group.2)
               <$> (printed_group <$> pre)), Some index_error).
Proof.
  intros Hpre Hgroup.
  induction Hpre as [|[source names] rest Hnames _ IH]; simpl.
  - destruct group as [source names]. simpl in *.
    by rewrite (sort_names_empty_name _ Hgroup).
  - simpl in Hnames. rewrite (sort_names_no_empty_name _ Hnames), IH. done.
Qed.

Lemma Sorted_printed_group assets :
  Sorted source_le assets -> Sorted source_le (printed_group <$> assets).
Proof.
  induction 1 as [|group rest _ IH Hhd]; [constructor|].
  rewrite fmap_cons. constructor; [done|].
  destruct Hhd; by constructor.
Qed.

(** X12.  With nothing to list [_dump_assets] prints ["  n/a"].
    Otherwise, when no name is empty, it prints for every source its
    header line, its names and an empty line, the sources in ascending
    order; no source and no name is lost or printed twice. *)
Theorem X12_dump_assets_prints_sources_in_order
    (assets : list (string * list string)) :
  Forall (fun group => "" ∉ group.2) assets ->
  (assets = [] -> _dump_assets assets = (["  n/a"], None))
  /\ (assets <> [] ->
      exists groups,
        _dump_assets assets
        = (concat ((fun group => group_lines group.1 group.2) <$> groups), None)
        /\ Sorted (fun a b => String.leb a.1 b.1 = true) groups
        /\ groups ≡ₚ
           (fun group =>
              (group.1, stable_sort first_char_le first_char group.2))
             <$> assets).
Proof.
  intros Hnames. split; [by intros ->|]. intros Hassets.
  exists (printed_group <$> sort_assets assets). split; [|split].
  - destruct assets as [|group rest]; [done|].
    unfold _dump_assets. apply dump_sources_no_empty_name.
    unfold sort_assets. by rewrite stable_sort_Permutation.
  - apply Sorted_printed_group.
    apply (stable_sort_Sorted String.leb fst String.leb_total).
  - unfold sort_assets. by rewrite stable_sort_Permutation.
Qed.

Lemma X12_dump_assets_prints_sources_in_order_witness :
  _dump_assets [("package:b", ["nllb"; "llama"]); ("package:a", ["s2t"])]
  = (["  package:a"; "   - s2t"; "";
      "  package:b"; "   - llama"; "   - nllb"; ""], None)
  /\ exists groups,
      _dump_assets [("package:b", ["nllb"; "llama"]); ("package:a", ["s2t"])]
      = (concat ((fun group => group_lines group.1 group.2) <$> groups), None)
      /\ Sorted (fun a b => String.leb a.1 b.1 = true) groups
      /\ groups ≡ₚ
         (fun group => (group.1, stable_sort first_char_le first_char group.2))
           <$> [("package:b", ["nllb"; "llama"]); ("package:a", ["s2t"])].
Proof.
  split; [reflexivity|].
  apply (X12_dump_assets_prints_sources_in_order
           [("package:b", ["nllb"; "llama"]); ("package:a", ["s2t"])]);
    [|done].
  repeat constructor; simpl;
    by intros [?|[?|?%elem_of_nil]%elem_of_cons]%elem_of_cons
     || by intros [?|?%elem_of_nil]%elem_of_cons.
Defined.

(** X13.  An empty name under some source ends [_dump_assets] with
    [IndexError] when the loop comes to that source: the sources that
    sort before it have been printed in full by then, and nothing of that
    source or of the ones after it is. *)
Theorem X13_dump_assets_empty_name (assets pre post : list (string * list string))
    (group : string * list string) :
  sort_assets assets = pre ++ group :: post ->
  Forall (fun group => "" ∉ group.2) pre ->
  "" ∈ group.2 ->
  _dump_assets assets
  = (concat ((fun group => group_lines group.1 group.2)
               <$> (printed_group <$> pre)),
     Some (IndexError "string index out of range")).
Proof.
  intros Hsorted Hpre Hgroup. destruct assets as [|first rest].
  - by destruct pre.
  - unfold _dump_assets. rewrite Hsorted.
    by apply dump_sources_empty_name.
Qed.

Lemma X13_dump_assets_empty_name_witness :
  _dump_assets [("package:b", ["nllb"; ""]); ("package:a", ["s2t"])]
  = (["  package:a"; "   - s2t"; ""],
     Some (IndexError "string index out of range")).
Proof.
  apply (X13_dump_assets_empty_name _ [("package:a", ["s2t"])] []
           ("package:b", ["nllb"; ""])).
  - reflexivity.
  - repeat constructor. by intros [?|?%elem_of_nil]%elem_of_cons.
  - by repeat constructor.
Defined.


(** * Checkpoints: [src/fairseq2/models/utils/load.py] *)

(** The exceptions met outside the store. *)
Inductive Exn : Type :=
| Builtin (e : Error)
| AssetError (msg : string)
| RuntimeError (msg : string)
| IOError (msg : string)
| RecursionError
| UnboundLocalError (variable : string)
| AttributeError (msg : string).

Inductive Result (A : Type) : Type :=
| Returned (a : A)
| Raised (e : Exn).
Arguments Returned {A} a.
Arguments Raised {A} e.

(** ** [str.replace] *)

(** [s.replace(old, new)] for a non-empty [old], read from the left:
    [skip] counts the characters of a match still to be passed over. *)
Fixpoint replace_from (old new : string) (skip : nat) (s : string) : string :=
  match s with
  | EmptyString => EmptyString
  | String c rest =>
      match skip with
      | S skip' => replace_from old new skip' rest
      | O =>
          if String.prefix old s
          then new +:+ replace_from old new (String.length old - 1) rest
          else String c (replace_from old new 0 rest)
      end
  end.

(** [s.replace("", new)]: [new] before every character and at the end. *)
Fixpoint replace_empty (new s : string) : string :=
  match s with
  | EmptyString => new
  | String c rest => new +:+ String c (replace_empty new rest)
  end.

Definition replace (old new s : string) : string :=
  match old with
  | EmptyString => replace_empty new s
  | String _ _ => replace_from old new 0 s
  end.

(** [old in s] *)
Fixpoint occurs (old s : string) : bool :=
  match s with
  | EmptyString => String.prefix old EmptyString
  | String _ rest => String.prefix old s || occurs old rest
  end.

Lemma replace_from_no_occurrence old new s :
  occurs old s = false -> replace_from old new 0 s = s.
Proof.
  induction s as [|c rest IH]; [done|]. intros H.
  cbn [occurs] in H. apply orb_false_elim in H as [Hhere Hrest].
  cbn [replace_from]. rewrite Hhere. by rewrite IH.
Qed.

(** Replacing what does not occur changes nothing. *)
Lemma replace_no_occurrence old new s :
  occurs old s = false -> replace old new s = s.
Proof.
  destruct old as [|c old]; [by destruct s|].
  apply replace_from_no_occurrence.
Qed.

Example replace_examples :
  replace "aa" "b" "aaa" = "ba"
  /\ replace ".fc1." ".ffn.inner_proj." "encoder.layers.0.fc1.weight"
     = "encoder.layers.0.ffn.inner_proj.weight"
  /\ replace "" "-" "abc" = "-a-b-c-"
  /\ replace "ab" "" "xababy" = "xy".
Proof. repeat split. Qed.

(** ** Dictionaries whose order of keys matters *)

Section dict.
Context {T : Type}.

(** A [dict] as the list of its items, distinct keys in insertion
    order. *)
Fixpoint dict_get (key : string) (d : list (string * T)) : option T :=
  match d with
  | [] => None
  | (key', value) :: rest =>
      if String.eqb key' key then Some value else dict_get key rest
  end.

(** [d[key] = value] *)
Fixpoint dict_set (key : string) (value : T) (d : list (string * T))
  : list (string * T) :=
  match d with
  | [] => [(key, value)]
  | (key', value') :: rest =>
      if String.eqb key' key then (key', value) :: rest
      else (key', value') :: dict_set key value rest
  end.

(** [d] without [key] *)
Fixpoint dict_remove (key : string) (d : list (string * T)) : list (string * T) :=
  match d with
  | [] => []
  | (key', value') :: rest =>
      if String.eqb key' key then dict_remove key rest
      else (key', value') :: dict_remove key rest
  end.

(** [del d[key]], [None] standing for its [KeyError] *)
Definition dict_del (key : string) (d : list (string * T))
  : option (list (string * T)) :=
  match dict_get key d with
  | Some _ => Some (dict_remove key d)
  | None => None
  end.

Lemma dict_get_set key key' value d :
  dict_get key' (dict_set key value d)
  = if String.eqb key key' then Some value else dict_get key' d.
Proof.
  induction d as [|[k v] rest IH]; simpl.
  - done.
  - destruct (String.eqb_spec k key) as [->|Hne]; simpl.
    + by destruct (String.eqb key key').
    + rewrite IH. destruct (String.eqb_spec k key') as [->|Hne']; [|done].
      destruct (String.eqb_spec key key'); [congruence|done].
Qed.

Lemma dict_get_remove key key' d :
  dict_get key' (dict_remove key d)
  = if String.eqb key key' then None else dict_get key' d.
Proof.
  induction d as [|[k v] rest IH]; simpl.
  - by destruct (String.eqb key key').
  - destruct (String.eqb_spec k key) as [->|Hne]; simpl.
    + rewrite IH. by destruct (String.eqb key key').
    + rewrite IH. destruct (String.eqb_spec k key') as [->|Hne']; [|done].
      destruct (String.eqb_spec key key'); [congruence|done].
Qed.

Lemma dict_del_Some key d d' :
  dict_del key d = Some d' -> d' = dict_remove key d.
Proof. unfold dict_del. destruct (dict_get key d); congruence. Qed.
End dict.

(** ** [upgrade_fairseq_checkpoint] *)

Definition _get_fairseq_param_key_map : list (string * string) :=
  [ (".encoder_attn", ".enc_dec_attn");
    (".fc1.", ".ffn.inner_proj.");
    (".fc2.", ".ffn.out_proj.");
    (".final_layer_norm.", ".ffn_layer_norm.");
    ("decoder.embed_tokens.weight", "decoder_frontend.embed.weight");
    ("decoder.output_projection.weight", "score_proj.weight");
    ("encoder.embed_tokens.weight", "encoder_frontend.embed.weight");
    ("encoder.subsample.conv_layers", "encoder_frontend.subsampler.convs");
    ("encoder.transformer_layers", "encoder.layers") ].

(** The inner loop: [key] after every replacement of the map, in the
    order of the map. *)
Definition modified_key (key : string) : string :=
  foldl (fun modified_key '(old, new) => replace old new modified_key)
    key _get_fairseq_param_key_map.

Definition encoder_positions : string := "encoder.embed_positions._float_tensor".
Definition decoder_positions : string := "decoder.embed_positions._float_tensor".

Section upgrade.
Context {T : Type}.

(** The outer loop: the new state dict, filled key by key. *)
Definition convert_keys (old_state_dict : list (string * T)) : list (string * T) :=
  foldl (fun new_state_dict '(key, value) =>
           dict_set (modified_key key) value new_state_dict)
    [] old_state_dict.

(** A checkpoint is a [dict] of state dicts; only ["model"] is read. *)
Definition upgrade_fairseq_checkpoint
    (checkpoint : gmap string (list (string * T)))
  : Result (gmap string (list (string * T))) :=
  match checkpoint !! "model" with
  | None => Raised (Builtin (KeyError "model"))
  | Some old_state_dict =>
      let new_state_dict := convert_keys old_state_dict in
      let new_state_dict := dict_remove "encoder.version" new_state_dict in
      let new_state_dict := dict_remove "decoder.version" new_state_dict in
      match dict_del encoder_positions new_state_dict with
      | None => Raised (Builtin (KeyError encoder_positions))
      | Some new_state_dict =>
          match dict_del decoder_positions new_state_dict with
          | None => Raised (Builtin (KeyError decoder_positions))
          | Some new_state_dict => Returned {[ "model" := new_state_dict ]}
          end
      end
  end.

Definition set_modified (new_state_dict : list (string * T))
    (item : string * T) : list (string * T) :=
  dict_set (modified_key item.1) item.2 new_state_dict.

Lemma convert_keys_foldl old_state_dict :
  convert_keys old_state_dict = foldl set_modified [] old_state_dict.
Proof.
  unfold convert_keys. generalize (@nil (string * T)).
  induction old_state_dict as [|[k v] rest IH]; intros acc; [done|].
  simpl. apply IH.
Qed.

(** Whatever the new state dict holds came from an item of the old one,
    under the modified key and with the value untouched. *)
Lemma foldl_set_modified_origin acc items key value :
  dict_get key (foldl set_modified acc items) = Some value ->
  (exists old_key, (old_key, value) ∈ items /\ modified_key old_key = key)
  \/ dict_get key acc = Some value.
Proof.
  revert acc. induction items as [|[k v] rest IH]; intros acc H; [by right|].
  simpl in H. apply IH in H as [(old_key & Hin & Hkey)|H].
  - left. exists old_key. split; [by right|done].
  - unfold set_modified in H. simpl in H. rewrite dict_get_set in H.
    destruct (String.eqb_spec (modified_key k) key) as [<-|Hne].
    + injection H as <-. left. exists k. split; [by left|done].
    + by right.
Qed.

(** Items whose modified key is another one leave a key as it is. *)
Lemma foldl_set_modified_other acc items key :
  Forall (fun item => modified_key item.1 <> key) items ->
  dict_get key (foldl set_modified acc items) = dict_get key acc.
Proof.
  intros Hitems. revert acc.
  induction Hitems as [|[k v] rest Hk _ IH]; intros acc; [done|].
  simpl. rewrite IH. unfold set_modified. simpl in *.
  rewrite dict_get_set. by destruct (String.eqb_spec (modified_key k) key).
Qed.

Lemma convert_keys_last pre post key value :
  Forall (fun item => modified_key item.1 <> modified_key key) post ->
  dict_get (modified_key key) (convert_keys (pre ++ (key, value) :: post))
  = Some value.
Proof.
  intros Hpost. rewrite convert_keys_foldl, foldl_app. simpl.
  rewrite (foldl_set_modified_other _ _ _ Hpost). unfold set_modified. simpl.
  by rewrite dict_get_set, String.eqb_refl.
Qed.
End upgrade.

Lemma modified_key_no_pattern key :
  Forall (fun entry => occurs entry.1 key = false) _get_fairseq_param_key_map ->
  modified_key key = key.
Proof.
  unfold modified_key.
  induction 1 as [|[old new] rest Hold _ IH]; [done|].
  simpl in *. by rewrite (replace_no_occurrence _ _ _ Hold).
Qed.

Section upgrade_properties.
Context {T : Type}.

(** The state dict a successful upgrade returns. *)
Definition upgraded_state_dict (old_state_dict : list (string * T))
  : list (string * T) :=
  dict_remove decoder_positions
    (dict_remove encoder_positions
       (dict_remove "decoder.version"
          (dict_remove "encoder.version" (convert_keys old_state_dict)))).

(** The four keys the upgrade drops. *)
Definition dropped (key : string) : bool :=
  String.eqb "encoder.version" key || String.eqb "decoder.version" key
  || String.eqb encoder_positions key || String.eqb decoder_positions key.

Lemma dict_get_upgraded key (old_state_dict : list (string * T)) :
  dict_get key (upgraded_state_dict old_state_dict)
  = if dropped key then None else dict_get key (convert_keys old_state_dict).
Proof.
  unfold upgraded_state_dict, dropped. rewrite !dict_get_remove.
  destruct (String.eqb decoder_positions key),
    (String.eqb encoder_positions key), (String.eqb "decoder.version" key),
    (String.eqb "encoder.version" key); done.
Qed.

Lemma upgrade_Returned_inv (checkpoint upgraded : gmap string (list (string * T))) :
  upgrade_fairseq_checkpoint checkpoint = Returned upgraded ->
  exists old_state_dict,
    checkpoint !! "model" = Some old_state_dict
    /\ is_Some (dict_get encoder_positions (convert_keys old_state_dict))
    /\ is_Some (dict_get decoder_positions (convert_keys old_state_dict))
    /\ upgraded = {[ "model" := upgraded_state_dict old_state_dict ]}.
Proof.
  unfold upgrade_fairseq_checkpoint. intros H.
  destruct (checkpoint !! "model") as [old|]; [|done]. exists old.
  unfold dict_del in H.
  destruct (dict_get encoder_positions _) as [v1|] eqn:Henc; [|done].
  destruct (dict_get decoder_positions _) as [v2|] eqn:Hdec; [|done].
  repeat (rewrite dict_get_remove in Henc; simpl in Henc).
  repeat (rewrite dict_get_remove in Hdec; simpl in Hdec).
  injection H as <-. by eauto.
Qed.

(** X14.  The upgrade comes through only for a checkpoint that has a
    ["model"] state dict in which some key ends up as the encoder's and
    some key as the decoder's positional embedding: both are deleted
    without a guard.  Whatever else it is given, it raises [KeyError] for
    ["model"] or for the first of the two keys that is missing, and so it
    does for an empty state dict. *)
Theorem X14_upgrade_needs_positional_embeddings
    (checkpoint : gmap string (list (string * T))) :
  (forall upgraded,
      upgrade_fairseq_checkpoint checkpoint = Returned upgraded ->
      exists old_state_dict,
        checkpoint !! "model" = Some old_state_dict
        /\ (exists key value,
               (key, value) ∈ old_state_dict
               /\ modified_key key = "encoder.embed_positions._float_tensor")
        /\ (exists key value,
               (key, value) ∈ old_state_dict
               /\ modified_key key = "decoder.embed_positions._float_tensor"))
  /\ (forall e,
         upgrade_fairseq_checkpoint checkpoint = Raised e ->
         e = Builtin (KeyError "model")
         \/ e = Builtin (KeyError "encoder.embed_positions._float_tensor")
         \/ e = Builtin (KeyError "decoder.embed_positions._float_tensor"))
  /\ (checkpoint !! "model" = Some [] ->
      upgrade_fairseq_checkpoint checkpoint
      = Raised (Builtin (KeyError "encoder.embed_positions._float_tensor"))).
Proof.
  split; [|split].
  - intros upgraded (old & Hold & [v1 Henc] & [v2 Hdec] & _)%upgrade_Returned_inv.
    exists old. split; [done|].
    rewrite convert_keys_foldl in Henc, Hdec.
    apply foldl_set_modified_origin in Henc as [(k1 & ? & ?)|?]; [|done].
    apply foldl_set_modified_origin in Hdec as [(k2 & ? & ?)|?]; [|done].
    split; eauto.
  - unfold upgrade_fairseq_checkpoint. intros e H.
    destruct (checkpoint !! "model"); [|injection H as <-; auto].
    destruct (dict_del encoder_positions _); [|injection H as <-; auto].
    destruct (dict_del decoder_positions _); [done|injection H as <-; auto].
  - unfold upgrade_fairseq_checkpoint. by intros ->.
Qed.

(** X15.  What a successful upgrade returns has the one key ["model"].
    Its state dict has neither of the two version keys nor of the two
    positional embeddings, and every item of it is an item of the old
    state dict under its modified key, the value untouched. *)
Theorem X15_upgrade_renames_and_drops
    (checkpoint upgraded : gmap string (list (string * T))) :
  upgrade_fairseq_checkpoint checkpoint = Returned upgraded ->
  exists old_state_dict new_state_dict,
    checkpoint !! "model" = Some old_state_dict
    /\ upgraded = {[ "model" := new_state_dict ]}
    /\ dict_get "encoder.version" new_state_dict = None
    /\ dict_get "decoder.version" new_state_dict = None
    /\ dict_get "encoder.embed_positions._float_tensor" new_state_dict = None
    /\ dict_get "decoder.embed_positions._float_tensor" new_state_dict = None
    /\ (forall key value,
           dict_get key new_state_dict = Some value ->
           exists old_key,
             (old_key, value) ∈ old_state_dict /\ modified_key old_key = key).
Proof.
  intros (old & Hold & _ & _ & ->)%upgrade_Returned_inv.
  exists old, (upgraded_state_dict old).
  repeat (split; [done || by rewrite dict_get_upgraded|]).
  intros key value. rewrite dict_get_upgraded, convert_keys_foldl.
  destruct (dropped key); [done|].
  intros [?|?]%foldl_set_modified_origin; done.
Qed.

(** X16.  A parameter comes through a successful upgrade under its
    modified key and with its value, unless that key is one of the four
    that are dropped or a later key of the state dict is modified into
    the same one.  A key in which none of the patterns of the map occurs
    is its own modified key. *)
Theorem X16_upgrade_keeps_parameters
    (checkpoint upgraded : gmap string (list (string * T)))
    (pre post : list (string * T)) (key : string) (value : T) :
  upgrade_fairseq_checkpoint checkpoint = Returned upgraded ->
  checkpoint !! "model" = Some (pre ++ (key, value) :: post) ->
  Forall (fun item => modified_key item.1 <> modified_key key) post ->
  dropped (modified_key key) = false ->
  exists new_state_dict,
    upgraded !! "model" = Some new_state_dict
    /\ dict_get (modified_key key) new_state_dict = Some value
    /\ (Forall (fun entry => occurs entry.1 key = false)
          _get_fairseq_param_key_map ->
        dict_get key new_state_dict = Some value).
Proof.
  intros (old & Hold & _ & _ & ->)%upgrade_Returned_inv Hmodel Hpost Hkept.
  rewrite Hold in Hmodel. injection Hmodel as ->.
  exists (upgraded_state_dict (pre ++ (key, value) :: post)).
  assert (dict_get (modified_key key)
            (upgraded_state_dict (pre ++ (key, value) :: post)) = Some value)
    as Hget by (by rewrite dict_get_upgraded, Hkept, convert_keys_last).
  split; [apply lookup_singleton_eq|]. split; [done|].
  intros Hpatterns. by rewrite (modified_key_no_pattern _ Hpatterns) in Hget.
Qed.
End upgrade_properties.

Definition nllb_state_dict : list (string * nat) :=
  [ ("encoder.embed_tokens.weight", 1%nat);
    ("encoder.layers.0.fc1.weight", 2%nat);
    ("encoder.version", 3%nat);
    ("encoder.embed_positions._float_tensor", 4%nat);
    ("decoder.embed_positions._float_tensor", 5%nat);
    ("decoder.layers.0.encoder_attn.k_proj.weight", 6%nat);
    ("decoder.layer_norm.weight", 7%nat) ].

Definition nllb_upgraded : list (string * nat) :=
  [ ("encoder_frontend.embed.weight", 1%nat);
    ("encoder.layers.0.ffn.inner_proj.weight", 2%nat);
    ("decoder.layers.0.enc_dec_attn.k_proj.weight", 6%nat);
    ("decoder.layer_norm.weight", 7%nat) ].

Example upgrade_nllb :
  upgrade_fairseq_checkpoint {[ "model" := nllb_state_dict ]}
  = Returned {[ "model" := nllb_upgraded ]}.
Proof. reflexivity. Qed.

Lemma X14_upgrade_needs_positional_embeddings_witness :
  upgrade_fairseq_checkpoint
    ({[ "model" := [] ]} : gmap string (list (string * nat)))
  = Raised (Builtin (KeyError "encoder.embed_positions._float_tensor"))
  /\ exists old_state_dict,
      ({[ "model" := nllb_state_dict ]} : gmap string (list (string * nat)))
        !! "model" = Some old_state_dict
      /\ (exists key value,
             (key, value) ∈ old_state_dict
             /\ modified_key key = "encoder.embed_positions._float_tensor")
      /\ (exists key value,
             (key, value) ∈ old_state_dict
             /\ modified_key key = "decoder.embed_positions._float_tensor").
Proof.
  split.
  - apply (proj2 (proj2 (X14_upgrade_needs_positional_embeddings
                           {[ "model" := [] ]}))). reflexivity.
  - apply (proj1 (X14_upgrade_needs_positional_embeddings
                    {[ "model" := nllb_state_dict ]})
             {[ "model" := nllb_upgraded ]}). reflexivity.
Defined.

Lemma X15_upgrade_renames_and_drops_witness :
  exists old_state_dict new_state_dict,
    ({[ "model" := nllb_state_dict ]} : gmap string (list (string * nat)))
      !! "model" = Some old_state_dict
    /\ ({[ "model" := nllb_upgraded ]} : gmap string (list (string * nat)))
       = {[ "model" := new_state_dict ]}
    /\ dict_get "encoder.version" new_state_dict = None
    /\ dict_get "decoder.version" new_state_dict = None
    /\ dict_get "encoder.embed_positions._float_tensor" new_state_dict = None
    /\ dict_get "decoder.embed_positions._float_tensor" new_state_dict = None
    /\ (forall key value,
           dict_get key new_state_dict = Some value ->
           exists old_key,
             (old_key, value) ∈ old_state_dict /\ modified_key old_key = key).
Proof.
  apply (X15_upgrade_renames_and_drops {[ "model" := nllb_state_dict ]}).
  reflexivity.
Defined.

Lemma X16_upgrade_keeps_parameters_witness :
  exists new_state_dict,
    ({[ "model" := nllb_upgraded ]} : gmap string (list (string * nat)))
      !! "model" = Some new_state_dict
    /\ dict_get (modified_key "decoder.layer_norm.weight") new_state_dict
       = Some 7%nat
    /\ (Forall (fun entry => occurs entry.1 "decoder.layer_norm.weight" = false)
          _get_fairseq_param_key_map ->
        dict_get "decoder.layer_norm.weight" new_state_dict = Some 7%nat).
Proof.
  apply (X16_upgrade_keeps_parameters {[ "model" := nllb_state_dict ]} _
           (take 6 nllb_state_dict) []); [reflexivity..|constructor|reflexivity].
Defined.

(** ** [load_checkpoint] *)

(** [raise_error]: the message names the checkpoint only when
    [checkpoint_name] is truthy.  The cause, kept by [raise ... from], is
    not part of the model. *)
Definition display_name (model_name : string) (checkpoint_name : option string)
  : string :=
  match checkpoint_name with
  | None | Some "" => "checkpoint of the model '" +:+ model_name +:+ "'"
  | Some checkpoint_name =>
      "'" +:+ checkpoint_name +:+ "' checkpoint of the model '"
      +:+ model_name +:+ "'"
  end.

Definition raise_error {A : Type} (model_name : string)
    (checkpoint_name : option string) : Result A :=
  Raised (RuntimeError
            ("The load of the " +:+ display_name model_name checkpoint_name
             +:+ " has failed. Please file a bug report.")).

(** [torch.load] is a parameter of the model: the call with the
    pathname, [map_location] and [weights_only=restrict].  [OtherError]
    stands for an exception that is none of the classes named in [Error]
    and [Exn]. *)
Definition load_checkpoint {C L : Type}
    (torch_load : string -> L -> bool -> Result C)
    (pathname model_name : string) (checkpoint_name : option string)
    (map_location : L) (restrict : bool)
    (upgrader : option (C -> Result C)) : Result C :=
  match torch_load pathname map_location restrict with
  | Raised (IOError _) => raise_error model_name checkpoint_name
  | Raised e => Raised e
  | Returned checkpoint =>
      match upgrader with
      | None => Returned checkpoint
      | Some upgrader =>
          match upgrader checkpoint with
          | Raised (Builtin (KeyError _)) | Raised (Builtin (ValueError _)) =>
              raise_error model_name checkpoint_name
          | Raised e => Raised e
          | Returned checkpoint => Returned checkpoint
          end
      end
  end.

Lemma upgrade_raises_KeyError {T : Type}
    (checkpoint : gmap string (list (string * T))) e :
  upgrade_fairseq_checkpoint checkpoint = Raised e ->
  exists key, e = Builtin (KeyError key).
Proof.
  unfold upgrade_fairseq_checkpoint. intros H.
  destruct (checkpoint !! "model"); [|injection H as <-; eauto].
  destruct (dict_del encoder_positions _); [|injection H as <-; eauto].
  destruct (dict_del decoder_positions _); [done|injection H as <-; eauto].
Qed.

(** X17.  With [upgrade_fairseq_checkpoint] as the upgrader, a loaded
    checkpoint either comes back upgraded or the load ends with the
    [RuntimeError] of [raise_error]: no [KeyError] of the upgrade gets
    out.  In particular a checkpoint without ["model"] is reported as a
    failed load. *)
Theorem X17_load_with_fairseq_upgrader {T L : Type}
    (torch_load : string -> L -> bool -> Result (gmap string (list (string * T))))
    pathname model_name checkpoint_name map_location restrict checkpoint :
  torch_load pathname map_location restrict = Returned checkpoint ->
  load_checkpoint torch_load pathname model_name checkpoint_name map_location
    restrict (Some upgrade_fairseq_checkpoint)
  = match upgrade_fairseq_checkpoint checkpoint with
    | Returned upgraded => Returned upgraded
    | Raised _ => raise_error model_name checkpoint_name
    end
  /\ (checkpoint !! "model" = None ->
      load_checkpoint torch_load pathname model_name checkpoint_name
        map_location restrict (Some upgrade_fairseq_checkpoint)
      = raise_error model_name checkpoint_name).
Proof.
  intros Hload.
  assert (load_checkpoint torch_load pathname model_name checkpoint_name
            map_location restrict (Some upgrade_fairseq_checkpoint)
          = match upgrade_fairseq_checkpoint checkpoint with
            | Returned upgraded => Returned upgraded
            | Raised _ => raise_error model_name checkpoint_name
            end) as Heq.
  { unfold load_checkpoint. rewrite Hload.
    destruct (upgrade_fairseq_checkpoint checkpoint) as [upgraded|e] eqn:Hup;
      [done|].
    by apply upgrade_raises_KeyError in Hup as [key ->]. }
  split; [done|]. intros Hmodel. rewrite Heq.
  unfold upgrade_fairseq_checkpoint. by rewrite Hmodel.
Qed.

Lemma X17_load_with_fairseq_upgrader_witness :
  load_checkpoint (fun _ (_ : unit) _ => Returned {[ "model" := nllb_state_dict ]})
    "nllb.pt" "nllb-200" (Some "dense") () false
    (Some upgrade_fairseq_checkpoint)
  = match upgrade_fairseq_checkpoint {[ "model" := nllb_state_dict ]} with
    | Returned upgraded => Returned upgraded
    | Raised _ => raise_error "nllb-200" (Some "dense")
    end
  /\ (({[ "model" := nllb_state_dict ]} : gmap string (list (string * nat)))
        !! "model" = None ->
      load_checkpoint
        (fun _ (_ : unit) _ => Returned {[ "model" := nllb_state_dict ]})
        "nllb.pt" "nllb-200" (Some "dense") () false
        (Some upgrade_fairseq_checkpoint)
      = raise_error "nllb-200" (Some "dense")).
Proof.
  apply (X17_load_with_fairseq_upgrader
           (fun _ (_ : unit) _ => Returned {[ "model" := nllb_state_dict ]})).
  reflexivity.
Defined.




(** * Dataset loaders: [src/fairseq2/datasets/loader.py] *)

#[global] Instance Result_ret : MRet Result := fun A a => Returned a.

#[global] Instance Result_bind : MBind Result := fun A B f r =>
  match r with
  | Returned a => f a
  | Raised e => Raised e
  end.

(** [try: r except ValueError: raise e'] *)
Definition except_ValueError {A : Type} (r : Result A) (e' : Exn) : Result A :=
  match r with
  | Raised (Builtin (ValueError _)) => Raised e'
  | _ => r
  end.

(** [Union[str, AssetCard]] *)
Inductive NameOrCard : Type :=
| Name (name : string)
| Card (card : AssetCard).

(** A [DatasetLoader] is its [__call__], taking [dataset_name_or_card],
    [force] and [progress]. *)
Definition DatasetLoader (DatasetT : Type) : Type :=
  NameOrCard -> bool -> bool -> Result DatasetT.

(** An [AssetStore] is its [retrieve_card]. *)
Definition AssetStore : Type := string -> Result AssetCard.

(** What the loaders read off a card: [card.name],
    [card.field(key).as_(str)] and [card.field(key).as_uri()].  The
    module of [AssetCard] is not among the sources, so the loaders are
    modelled for any behaviour of the three. *)
Class AssetCardFields (Uri : Type) : Type := {
  card_name : AssetCard -> string;
  field_as_str : AssetCard -> string -> Result string;
  field_as_uri : AssetCard -> string -> Result Uri
}.

(** The first lines of both [__call__]s. *)
Definition card_of (asset_store : AssetStore) (dataset_name_or_card : NameOrCard)
  : Result AssetCard :=
  match dataset_name_or_card with
  | Card card => Returned card
  | Name name => asset_store name
  end.

(** [StandardAssetStore] as an [AssetStore], on a stack that admits
    [depth] frames of [_do_retrieve_card]. *)
Definition standard_asset_store (depth : nat) (self : StandardAssetStore)
  : AssetStore :=
  fun name =>
    match outcome (retrieve_card depth self name) with
    | Some (Ok card) => Returned card
    | Some (Raise e) => Raised (Builtin e)
    | None => Raised RecursionError
    end.

Module AbstractDatasetLoader.

Record t (DatasetT Uri Path : Type) : Type := {
  _asset_store : AssetStore;
  _download_manager : Uri -> string -> bool -> bool -> Result Path;
  _load : Path -> AssetCard -> Result DatasetT
}.
Arguments _asset_store {DatasetT Uri Path} self : rename.
Arguments _download_manager {DatasetT Uri Path} self : rename.
Arguments _load {DatasetT Uri Path} self : rename.

Definition invalid_data_message (name : string) : string :=
  "The value of the field 'data' of the asset card '" +:+ name
  +:+ "' is not valid. See nested exception for details.".

Definition cannot_load_message (name : string) : string :=
  "The " +:+ name +:+ " dataset cannot be loaded. See nested exception for details.".

Definition __call__ {DatasetT Uri Path : Type} `{AssetCardFields Uri}
    (self : t DatasetT Uri Path) (dataset_name_or_card : NameOrCard)
    (force progress : bool) : Result DatasetT :=
  card ← card_of (_asset_store self) dataset_name_or_card;
  uri ← field_as_uri card "data";
  path ← except_ValueError
           (_download_manager self uri (card_name card) force progress)
           (Builtin (AssetCardError (invalid_data_message (card_name card))));
  except_ValueError (_load self path card)
    (AssetError (cannot_load_message (card_name card))).

End AbstractDatasetLoader.

Module DelegatingDatasetLoader.

Record t (DatasetT : Type) : Type := {
  _asset_store : AssetStore;
  _loaders : gmap string (DatasetLoader DatasetT)
}.
Arguments _asset_store {DatasetT} self : rename.
Arguments _loaders {DatasetT} self : rename.

Definition __init__ {DatasetT : Type} (asset_store : AssetStore) : t DatasetT :=
  {| _asset_store := asset_store; _loaders := ∅ |}.

Definition no_loader_message (name family : string) : string :=
  "The value of the field 'dataset_family' of the asset card '" +:+ name
  +:+ "' must be a supported dataset family, but '" +:+ family
  +:+ "' has no registered loader.".

Definition __call__ {DatasetT Uri : Type} `{AssetCardFields Uri}
    (self : t DatasetT) (dataset_name_or_card : NameOrCard)
    (force progress : bool) : Result DatasetT :=
  card ← card_of (_asset_store self) dataset_name_or_card;
  family ← field_as_str card "dataset_family";
  match _loaders self !! family with
  | None => Raised (AssetError (no_loader_message (card_name card) family))
  | Some loader => loader (Card card) force progress
  end.

Definition not_unique_message (family : string) : string :=
  "`family` must be a unique dataset type, but '" +:+ family
  +:+ "' has already a registered loader.".

(** [register] returns the loader as it is afterwards. *)
Definition register {DatasetT : Type} (self : t DatasetT) (family : string)
    (loader : DatasetLoader DatasetT) : Result (t DatasetT) :=
  match _loaders self !! family with
  | Some _ => Raised (Builtin (ValueError (not_unique_message family)))
  | None =>
      Returned {| _asset_store := _asset_store self;
                  _loaders := <[family := loader]> (_loaders self) |}
  end.

End DelegatingDatasetLoader.

Lemma Result_bind_Returned {A B} (a : A) (f : A -> Result B) :
  Returned a ≫= f = f a.
Proof. done. Qed.

Lemma Result_bind_Raised {A B} e (f : A -> Result B) :
  (Raised e : Result A) ≫= f = Raised e.
Proof. done. Qed.

Lemma register_Returned_inv {DatasetT}
    (self self' : DelegatingDatasetLoader.t DatasetT) family loader :
  DelegatingDatasetLoader.register self family loader = Returned self' ->
  DelegatingDatasetLoader._loaders self !! family = None
  /\ DelegatingDatasetLoader._asset_store self'
     = DelegatingDatasetLoader._asset_store self
  /\ DelegatingDatasetLoader._loaders self'
     = <[family := loader]> (DelegatingDatasetLoader._loaders self).
Proof.
  unfold DelegatingDatasetLoader.register.
  destruct (DelegatingDatasetLoader._loaders self !! family); [done|].
  by intros [= <-].
Qed.

Section loader_properties.
Context {DatasetT Uri Path : Type} `{AssetCardFields Uri}.

(** X19.  Before a family is registered, a card of that family is
    refused with [AssetError]; once [register] has returned, the card is
    handed to the registered loader, as a card and with the same [force]
    and [progress], and what that loader does is the result.  A dataset
    given by its name is looked up in the store of the delegating loader
    first. *)
Theorem X19_registered_loader_is_used
    (self self' : DelegatingDatasetLoader.t DatasetT) family loader
    dataset_name_or_card card force progress :
  DelegatingDatasetLoader.register self family loader = Returned self' ->
  card_of (DelegatingDatasetLoader._asset_store self) dataset_name_or_card
  = Returned card ->
  field_as_str card "dataset_family" = Returned family ->
  DelegatingDatasetLoader.__call__ self dataset_name_or_card force progress
  = Raised (AssetError
              (DelegatingDatasetLoader.no_loader_message (card_name card) family))
  /\ DelegatingDatasetLoader.__call__ self' dataset_name_or_card force progress
     = loader (Card card) force progress.
Proof.
  intros (Hnew & Hstore & Hloaders)%register_Returned_inv Hcard Hfamily.
  unfold DelegatingDatasetLoader.__call__.
  rewrite Hstore, Hcard, !Result_bind_Returned, Hfamily, !Result_bind_Returned.
  unfold DatasetLoader in *.
  split; [by rewrite Hnew|by rewrite Hloaders, lookup_insert_eq].
Qed.

(** X20.  [register] raises [ValueError] exactly when the family has a
    loader already.  So after a registration a second one for the same
    family is refused whatever the loader, and the first loader stays in
    charge; datasets that are not of the new family are loaded as they
    were before. *)
Theorem X20_register_is_once_per_family
    (self : DelegatingDatasetLoader.t DatasetT) family
    (loader : DatasetLoader DatasetT) :
  (is_Some (DelegatingDatasetLoader._loaders self !! family)
   <-> DelegatingDatasetLoader.register self family loader
       = Raised (Builtin (ValueError
                            (DelegatingDatasetLoader.not_unique_message family))))
  /\ (forall self',
         DelegatingDatasetLoader.register self family loader = Returned self' ->
         (forall other,
             DelegatingDatasetLoader.register self' family other
             = Raised (Builtin (ValueError
                                  (DelegatingDatasetLoader.not_unique_message
                                     family))))
         /\ (forall dataset_name_or_card force progress,
                (forall card,
                    card_of (DelegatingDatasetLoader._asset_store self)
                      dataset_name_or_card = Returned card ->
                    field_as_str card "dataset_family" <> Returned family) ->
                DelegatingDatasetLoader.__call__ self' dataset_name_or_card
                  force progress
                = DelegatingDatasetLoader.__call__ self dataset_name_or_card
                    force progress)).
Proof.
  split.
  - unfold DelegatingDatasetLoader.register.
    destruct (DelegatingDatasetLoader._loaders self !! family); split;
      by (done || intros [] || eauto).
  - intros self' (Hnew & Hstore & Hloaders)%register_Returned_inv. split.
    + intros other. unfold DelegatingDatasetLoader.register.
      unfold DatasetLoader in *. by rewrite Hloaders, lookup_insert_eq.
    + intros x force progress Hother.
      unfold DelegatingDatasetLoader.__call__, DatasetLoader in *.
      rewrite Hstore.
      destruct (card_of _ x) as [card|e] eqn:Hcard; [|done].
      rewrite !Result_bind_Returned. specialize (Hother card eq_refl).
      destruct (field_as_str card "dataset_family") as [family'|e]; [|done].
      rewrite !Result_bind_Returned, Hloaders, lookup_insert_ne; [done|].
      congruence.
Qed.

(** X21.  No [ValueError] of the download manager or of [_load] gets out
    of an [AbstractDatasetLoader]: the first becomes an [AssetCardError]
    and the second an [AssetError], both naming the card.  A
    [ValueError] that does get out was raised by the store or by the
    reading of the field ['data']. *)
Theorem X21_abstract_loader_value_errors
    (self : AbstractDatasetLoader.t DatasetT Uri Path)
    dataset_name_or_card force progress :
  (forall msg,
      AbstractDatasetLoader.__call__ self dataset_name_or_card force progress
      = Raised (Builtin (ValueError msg)) ->
      card_of (AbstractDatasetLoader._asset_store self) dataset_name_or_card
      = Raised (Builtin (ValueError msg))
      \/ exists card,
          card_of (AbstractDatasetLoader._asset_store self) dataset_name_or_card
          = Returned card
          /\ field_as_uri card "data" = Raised (Builtin (ValueError msg)))
  /\ (forall card uri,
         card_of (AbstractDatasetLoader._asset_store self) dataset_name_or_card
         = Returned card ->
         field_as_uri card "data" = Returned uri ->
         (forall msg,
             AbstractDatasetLoader._download_manager self uri (card_name card)
               force progress = Raised (Builtin (ValueError msg)) ->
             AbstractDatasetLoader.__call__ self dataset_name_or_card force
               progress
             = Raised (Builtin (AssetCardError
                                  (AbstractDatasetLoader.invalid_data_message
                                     (card_name card)))))
         /\ (forall path msg,
                AbstractDatasetLoader._download_manager self uri (card_name card)
                  force progress = Returned path ->
                AbstractDatasetLoader._load self path card
                = Raised (Builtin (ValueError msg)) ->
                AbstractDatasetLoader.__call__ self dataset_name_or_card force
                  progress
                = Raised (AssetError
                            (AbstractDatasetLoader.cannot_load_message
                               (card_name card))))).
Proof.
  unfold AbstractDatasetLoader.__call__. split.
  - intros msg.
    destruct (card_of _ dataset_name_or_card) as [card|e];
      [|intros [= ->]; by left].
    rewrite Result_bind_Returned.
    destruct (field_as_uri card "data") as [uri|e] eqn:Huri;
      [|intros [= ->]; right; by exists card].
    rewrite Result_bind_Returned.
    destruct (AbstractDatasetLoader._download_manager self uri _ force progress)
      as [path|[[]| | | | | |]]; try done.
    simpl except_ValueError. rewrite Result_bind_Returned.
    by destruct (AbstractDatasetLoader._load self path card) as [|[[]| | | | | |]].
  - intros card uri -> Huri.
    rewrite Result_bind_Returned, Huri, Result_bind_Returned. split.
    + by intros msg ->.
    + intros path msg -> Hload.
      simpl except_ValueError. by rewrite Result_bind_Returned, Hload.
Qed.

(** X22.  The errors of the store reach the caller of either loader as
    they are: for a name with an ['@'] in it the [ValueError] of
    [retrieve_card], which neither translation of the
    [AbstractDatasetLoader] touches, and for a name that no provider has
    the [AssetNotFoundError] of [_get_metadata]. *)
Theorem X22_store_errors_reach_the_caller (depth : nat)
    (store : StandardAssetStore)
    (loader : AbstractDatasetLoader.t DatasetT Uri Path)
    (loaders : gmap string (DatasetLoader DatasetT)) (name : string)
    (force progress : bool) :
  let abstract :=
    {| AbstractDatasetLoader._asset_store := standard_asset_store (S depth) store;
       AbstractDatasetLoader._download_manager :=
         AbstractDatasetLoader._download_manager loader;
       AbstractDatasetLoader._load := AbstractDatasetLoader._load loader |} in
  let delegating :=
    {| DelegatingDatasetLoader._asset_store :=
         standard_asset_store (S depth) store;
       DelegatingDatasetLoader._loaders := loaders |} in
  (contains_at name = true ->
   AbstractDatasetLoader.__call__ abstract (Name name) force progress
   = Raised (Builtin (ValueError reserved_message))
   /\ DelegatingDatasetLoader.__call__ delegating (Name name) force progress
      = Raised (Builtin (ValueError reserved_message)))
  /\ (contains_at name = false ->
      forallb returns (env_resolvers store) = true ->
      forallb (lacks name) (search_order store) = true ->
      AbstractDatasetLoader.__call__ abstract (Name name) force progress
      = Raised (Builtin (AssetNotFoundError (not_found_message name)))
      /\ DelegatingDatasetLoader.__call__ delegating (Name name) force progress
         = Raised (Builtin (AssetNotFoundError (not_found_message name)))).
Proof.
  intros abstract delegating. split.
  - intros Hat.
    assert (standard_asset_store (S depth) store name
            = Raised (Builtin (ValueError reserved_message))) as Hstore.
    { unfold standard_asset_store, retrieve_card. by rewrite Hat. }
    unfold AbstractDatasetLoader.__call__, DelegatingDatasetLoader.__call__.
    simpl card_of. by rewrite Hstore.
  - intros Hat Hresolvers Hlacks.
    assert (standard_asset_store (S depth) store name
            = Raised (Builtin (AssetNotFoundError (not_found_message name))))
      as Hstore.
    { unfold standard_asset_store.
      rewrite (retrieve_card_resolved _ _ _ _ Hat
                 (f_equal outcome (_resolve_envs_returns _ Hresolvers))).
      rewrite (_do_retrieve_card_failed _ _ _ _
                 (AssetNotFoundError (not_found_message name))); [done|].
      unfold resolve_level.
      by rewrite outcome_bind, (_get_metadata_absent _ _ Hlacks). }
    unfold AbstractDatasetLoader.__call__, DelegatingDatasetLoader.__call__.
    simpl card_of. by rewrite Hstore.
Qed.
End loader_properties.

(** Cards to run the loaders on: the three fields read off the card's
    own metadata. *)
Definition own_str (card : AssetCard) (key : string) : Result string :=
  match card_metadata card !! key with
  | Some (VStr s) => Returned s
  | _ => Raised (Builtin (AssetCardError key))
  end.

Definition own_fields : AssetCardFields string :=
  {| card_name := fun card =>
       match own_str card "name" with Returned s => s | Raised _ => "" end;
     field_as_str := own_str;
     field_as_uri := own_str |}.

Definition text_card : AssetCard :=
  mkAssetCard {[ "name" := VStr "d"; "dataset_family" := VStr "text";
                 "data" := VStr "file:///d" ]} None.

Definition text_loader : DatasetLoader nat := fun _ _ _ => Returned 7%nat.

Definition no_store : AssetStore :=
  fun name => Raised (Builtin (AssetNotFoundError (not_found_message name))).

Lemma X19_registered_loader_is_used_witness :
  DelegatingDatasetLoader.__call__ (DatasetT := nat) (H := own_fields)
    (DelegatingDatasetLoader.__init__ no_store) (Card text_card) false true
  = Raised (AssetError (DelegatingDatasetLoader.no_loader_message "d" "text"))
  /\ DelegatingDatasetLoader.__call__ (H := own_fields)
       {| DelegatingDatasetLoader._asset_store := no_store;
          DelegatingDatasetLoader._loaders := {[ "text" := text_loader ]} |}
       (Card text_card) false true
     = Returned 7%nat.
Proof.
  apply (X19_registered_loader_is_used (H := own_fields)
           (DelegatingDatasetLoader.__init__ no_store) _ "text" text_loader
           (Card text_card) text_card false true); reflexivity.
Defined.

Lemma X22_store_errors_reach_the_caller_witness :
  AbstractDatasetLoader.__call__ (H := own_fields)
    {| AbstractDatasetLoader._asset_store := standard_asset_store 1 plain_store;
       AbstractDatasetLoader._download_manager :=
         fun uri _ _ _ => Returned uri;
       AbstractDatasetLoader._load := fun _ _ => Returned 7%nat |}
    (Name "m@prod") false true
  = Raised (Builtin (ValueError reserved_message))
  /\ DelegatingDatasetLoader.__call__ (H := own_fields)
       {| DelegatingDatasetLoader._asset_store :=
            standard_asset_store 1 plain_store;
          DelegatingDatasetLoader._loaders := {[ "text" := text_loader ]} |}
       (Name "m@prod") false true
     = Raised (Builtin (ValueError reserved_message)).
Proof.
  apply (proj1 (X22_store_errors_reach_the_caller (H := own_fields) 0
                  plain_store
                  {| AbstractDatasetLoader._asset_store := no_store;
                     AbstractDatasetLoader._download_manager :=
                       fun uri _ _ _ => Returned uri;
                     AbstractDatasetLoader._load := fun _ _ => Returned 7%nat |}
                  {[ "text" := text_loader ]} "m@prod" false true)).
  reflexivity.
Defined.


(** * Modules: [src/fairseq2/nn/utils/module.py] *)

(** ** [get_module_size] *)

(** What the function reads of a tensor. *)
Record Tensor : Type := {
  numel : N;
  element_size : N;
  requires_grad : bool
}.

Record ModuleSizeInfo : Type := {
  param_size : N;
  param_size_bytes : N;
  trainable_param_size : N;
  trainable_param_size_bytes : N;
  buffer_size : N;
  buffer_size_bytes : N;
  total_size : N;
  total_size_bytes : N
}.

(** One turn of the loop over [module.parameters()]. *)
Definition add_param (info : ModuleSizeInfo) (param : option Tensor)
  : ModuleSizeInfo :=
  match param with
  | None => info
  | Some param =>
      let size := numel param in
      let size_bytes := (size * element_size param)%N in
      {| param_size := param_size info + size;
         param_size_bytes := param_size_bytes info + size_bytes;
         trainable_param_size :=
           if requires_grad param then trainable_param_size info + size
           else trainable_param_size info;
         trainable_param_size_bytes :=
           if requires_grad param then trainable_param_size_bytes info + size_bytes
           else trainable_param_size_bytes info;
         buffer_size := buffer_size info;
         buffer_size_bytes := buffer_size_bytes info;
         total_size := total_size info + size;
         total_size_bytes := total_size_bytes info + size_bytes |}%N
  end.

(** One turn of the loop over [module.buffers()]; [param] is what the
    first loop left in its variable. *)
Definition add_buffer (param : Tensor) (info : ModuleSizeInfo) (buffer : Tensor)
  : ModuleSizeInfo :=
  let size := numel buffer in
  let size_bytes := (size * element_size param)%N in
  {| param_size := param_size info;
     param_size_bytes := param_size_bytes info;
     trainable_param_size := trainable_param_size info;
     trainable_param_size_bytes := trainable_param_size_bytes info;
     buffer_size := buffer_size info + size;
     buffer_size_bytes := buffer_size_bytes info + size * size_bytes;
     total_size := total_size info + size;
     total_size_bytes := total_size_bytes info + size_bytes |}%N.

(** [ModuleSizeInfo()] *)
Definition default_info : ModuleSizeInfo :=
  {| param_size := 0; param_size_bytes := 0;
     trainable_param_size := 0; trainable_param_size_bytes := 0;
     buffer_size := 0; buffer_size_bytes := 0;
     total_size := 0; total_size_bytes := 0 |}%N.

Definition no_element_size_message : string :=
  "'NoneType' object has no attribute 'element_size'".

(** [parameters] and [buffers] are what [module.parameters()] and
    [module.buffers()] yield.  The second loop reads [param], the
    variable of the first: unbound if that loop had no turn, [None] or a
    tensor otherwise. *)
Definition get_module_size (parameters : list (option Tensor))
    (buffers : list Tensor) : Result ModuleSizeInfo :=
  let info := foldl add_param default_info parameters in
  match buffers with
  | [] => Returned info
  | _ :: _ =>
      match last parameters with
      | None => Raised (UnboundLocalError "param")
      | Some None => Raised (AttributeError no_element_size_message)
      | Some (Some param) => Returned (foldl (add_buffer param) info buffers)
      end
  end.

(** The sum of [f] over a list. *)
Definition sum_of {A : Type} (f : A -> N) (l : list A) : N :=
  foldr (fun a n => (f a + n)%N) 0%N l.

Definition param_numel (param : option Tensor) : N :=
  from_option numel 0%N param.

Definition param_bytes (param : option Tensor) : N :=
  from_option (fun param => numel param * element_size param)%N 0%N param.

(** What the first loop keeps. *)
Definition params_counted (info info' : ModuleSizeInfo)
    (parameters : list (option Tensor)) : Prop :=
  (param_size info' = param_size info + sum_of param_numel parameters
   /\ param_size_bytes info' = param_size_bytes info + sum_of param_bytes parameters
   /\ total_size info' = total_size info + sum_of param_numel parameters
   /\ total_size_bytes info'
      = total_size_bytes info + sum_of param_bytes parameters
   /\ buffer_size info' = buffer_size info
   /\ buffer_size_bytes info' = buffer_size_bytes info
   /\ trainable_param_size info' - trainable_param_size info
      <= sum_of param_numel parameters
   /\ trainable_param_size info <= trainable_param_size info'
   /\ trainable_param_size_bytes info' - trainable_param_size_bytes info
      <= sum_of param_bytes parameters
   /\ trainable_param_size_bytes info <= trainable_param_size_bytes info')%N.

Lemma foldl_add_param info parameters :
  params_counted info (foldl add_param info parameters) parameters.
Proof.
  revert info. induction parameters as [|[param|] rest IH]; intros info.
  - unfold params_counted. simpl. lia.
  - specialize (IH (add_param info (Some param))).
    unfold params_counted in *. simpl in *.
    destruct (requires_grad param); lia.
  - specialize (IH info). unfold params_counted in *. simpl in *. lia.
Qed.

(** What the second loop adds. *)
Lemma foldl_add_buffer param info buffers :
  let info' := foldl (add_buffer param) info buffers in
  (param_size info' = param_size info
   /\ param_size_bytes info' = param_size_bytes info
   /\ trainable_param_size info' = trainable_param_size info
   /\ trainable_param_size_bytes info' = trainable_param_size_bytes info
   /\ buffer_size info' = buffer_size info + sum_of numel buffers
   /\ buffer_size_bytes info'
      = buffer_size_bytes info
        + element_size param * sum_of (fun b => numel b * numel b) buffers
   /\ total_size info' = total_size info + sum_of numel buffers
   /\ total_size_bytes info'
      = total_size_bytes info + element_size param * sum_of numel buffers)%N.
Proof.
  revert info. induction buffers as [|buffer rest IH]; intros info.
  - simpl. lia.
  - specialize (IH (add_buffer param info buffer)). simpl in *.
    destruct IH as (-> & -> & -> & -> & -> & -> & -> & ->). lia.
Qed.

Lemma get_module_size_Returned_inv parameters buffers info :
  get_module_size parameters buffers = Returned info ->
  (buffers = [] /\ info = foldl add_param default_info parameters)
  \/ (buffers <> []
      /\ exists param,
          last parameters = Some (Some param)
          /\ info = foldl (add_buffer param)
                      (foldl add_param default_info parameters) buffers).
Proof.
  unfold get_module_size. destruct buffers as [|buffer rest].
  - intros [= <-]. by left.
  - destruct (last parameters) as [[param|]|]; try done.
    intros [= <-]. right. split; [done|]. by exists param.
Qed.

(** X23.  When [get_module_size] returns, the parameter and buffer sizes
    are the sums of [numel()] over the parameters that are not [None]
    and over the buffers, the total size is exactly their sum, the
    parameter bytes are the sum of [numel() * element_size()], and the
    trainable sizes never exceed the parameter sizes. *)
Theorem X23_module_size_totals parameters buffers info :
  get_module_size parameters buffers = Returned info ->
  (param_size info = sum_of param_numel parameters
   /\ param_size_bytes info = sum_of param_bytes parameters
   /\ buffer_size info = sum_of numel buffers
   /\ total_size info = param_size info + buffer_size info
   /\ trainable_param_size info <= param_size info
   /\ trainable_param_size_bytes info <= param_size_bytes info)%N.
Proof.
  pose proof (foldl_add_param default_info parameters) as Hparams.
  unfold params_counted in Hparams. simpl in Hparams.
  intros [[-> ->]|(_ & param & _ & ->)]%get_module_size_Returned_inv.
  - simpl. lia.
  - pose proof (foldl_add_buffer param
                  (foldl add_param default_info parameters) buffers) as Hbuffers.
    simpl in Hbuffers. lia.
Qed.

(** X24.  The bytes of the buffers are not counted with the buffers' own
    element sizes.  When the module has buffers and the function
    returns, the last parameter is a tensor, the total of bytes is the
    parameter bytes plus the buffers' [numel()] times the element size of
    that parameter, and [buffer_size_bytes] is that element size times
    the sum of the squares of the buffers' [numel()]. *)
Theorem X24_buffers_are_sized_by_the_last_parameter parameters buffers info :
  get_module_size parameters buffers = Returned info ->
  buffers <> [] ->
  exists param,
    last parameters = Some (Some param)
    /\ (total_size_bytes info
        = param_size_bytes info + element_size param * sum_of numel buffers
        /\ buffer_size_bytes info
           = element_size param
             * sum_of (fun buffer => numel buffer * numel buffer) buffers)%N.
Proof.
  pose proof (foldl_add_param default_info parameters) as Hparams.
  unfold params_counted in Hparams. simpl in Hparams.
  intros [[-> ->]|(_ & param & Hlast & ->)]%get_module_size_Returned_inv;
    [done|]. intros _. exists param. split; [done|].
  pose proof (foldl_add_buffer param
                (foldl add_param default_info parameters) buffers) as Hbuffers.
  simpl in Hbuffers. lia.
Qed.

(** X25.  [get_module_size] returns exactly when the module has no
    buffers or the last parameter is a tensor.  For a module with
    buffers and no parameters it ends with [UnboundLocalError], the
    variable [param] never having been bound. *)
Theorem X25_module_size_needs_a_parameter parameters buffers :
  ((exists info, get_module_size parameters buffers = Returned info)
   <-> buffers = [] \/ exists param, last parameters = Some (Some param))
  /\ (parameters = [] -> buffers <> [] ->
      get_module_size parameters buffers = Raised (UnboundLocalError "param")).
Proof.
  split; [split|].
  - intros [info [[-> _]|(_ & param & Hlast & _)]%get_module_size_Returned_inv];
      by eauto.
  - unfold get_module_size. intros [->|[param ->]]; [by eauto|].
    destruct buffers; by eauto.
  - intros -> Hbuffers. unfold get_module_size. by destruct buffers.
Qed.

Definition sample_parameters : list (option Tensor) :=
  [ Some {| numel := 6; element_size := 4; requires_grad := true |};
    Some {| numel := 2; element_size := 2; requires_grad := false |} ]%N.

Definition sample_buffers : list Tensor :=
  [ {| numel := 3; element_size := 8; requires_grad := false |} ]%N.

Definition sample_info : ModuleSizeInfo :=
  {| param_size := 8; param_size_bytes := 28;
     trainable_param_size := 6; trainable_param_size_bytes := 24;
     buffer_size := 3; buffer_size_bytes := 18;
     total_size := 11; total_size_bytes := 34 |}%N.

Example get_module_size_sample :
  get_module_size sample_parameters sample_buffers = Returned sample_info.
Proof. reflexivity. Qed.

Lemma X23_module_size_totals_witness :
  (param_size sample_info = sum_of param_numel sample_parameters
   /\ param_size_bytes sample_info = sum_of param_bytes sample_parameters
   /\ buffer_size sample_info = sum_of numel sample_buffers
   /\ total_size sample_info = param_size sample_info + buffer_size sample_info
   /\ trainable_param_size sample_info <= param_size sample_info
   /\ trainable_param_size_bytes sample_info <= param_size_bytes sample_info)%N.
Proof.
  apply (X23_module_size_totals sample_parameters sample_buffers sample_info).
  reflexivity.
Defined.

Lemma X24_buffers_are_sized_by_the_last_parameter_witness :
  exists param,
    last sample_parameters = Some (Some param)
    /\ (total_size_bytes sample_info
        = param_size_bytes sample_info
          + element_size param * sum_of numel sample_buffers
        /\ buffer_size_bytes sample_info
           = element_size param
             * sum_of (fun buffer => numel buffer * numel buffer)
                 sample_buffers)%N.
Proof.
  apply (X24_buffers_are_sized_by_the_last_parameter sample_parameters
           sample_buffers sample_info); [reflexivity|discriminate].
Defined.

Lemma X25_module_size_needs_a_parameter_witness :
  get_module_size [] sample_buffers = Raised (UnboundLocalError "param").
Proof.
  apply (proj2 (X25_module_size_needs_a_parameter [] sample_buffers));
    [reflexivity|discriminate].
Defined.

(** ** [infer_device] *)

From stdpp Require Import sorting.

(** [sorted] on strings, and [sep.join]. *)
Definition sorted (l : list string) : list string := stable_sort String.leb id l.

Fixpoint join (sep : string) (l : list string) : string :=
  match l with
  | [] => ""
  | [s] => s
  | s :: rest => s +:+ sep +:+ join sep rest
  end.

Definition different_devices_message (name s : string) : string :=
  "All parameters and buffers of `" +:+ name
  +:+ "` must be on the same device, but they are on '" +:+ s +:+ "'.".

Section infer_device.
Context `{Countable Device} (CPU : Device) (device_type : Device -> string).

(** [f"'{d.type}'"] *)
Definition quoted_type (d : Device) : string := "'" +:+ device_type d +:+ "'".

(** [parameters] and [buffers] are the devices of what
    [module.parameters(recurse)] and [module.buffers(recurse)] yield;
    [len(devices)] is the length of [elements devices].  The order in
    which the set is gone through does not show in the sorted list. *)
Definition infer_device (parameters buffers : list Device) (name : string)
  : Result Device :=
  let devices : gset Device := list_to_set (parameters ++ buffers) in
  match elements devices with
  | [] => Returned CPU
  | [d] => Returned d
  | _ =>
      let s := join ", " (sorted (quoted_type <$> elements devices)) in
      Raised (Builtin (ValueError (different_devices_message name s)))
  end.
End infer_device.

Lemma Ascii_compare_refl c : Ascii.compare c c = Eq.
Proof. unfold Ascii.compare. apply N.compare_refl. Qed.

Lemma Ascii_compare_Lt_trans a b c :
  Ascii.compare a b = Lt -> Ascii.compare b c = Lt -> Ascii.compare a c = Lt.
Proof.
  unfold Ascii.compare. rewrite !N.compare_lt_iff. apply N.lt_trans.
Qed.

Lemma String_compare_Lt_trans s1 s2 s3 :
  String.compare s1 s2 = Lt -> String.compare s2 s3 = Lt ->
  String.compare s1 s3 = Lt.
Proof.
  revert s2 s3. induction s1 as [|a s1 IH]; intros [|b s2] [|c s3]; try done.
  simpl.
  destruct (Ascii.compare a b) eqn:Hab; [|clear IH|done];
    (destruct (Ascii.compare b c) eqn:Hbc; [| |done]).
  - apply Ascii.compare_eq_iff in Hab as ->. rewrite Hbc. apply IH.
  - apply Ascii.compare_eq_iff in Hab as ->. by rewrite Hbc.
  - apply Ascii.compare_eq_iff in Hbc as <-. by rewrite Hab.
  - by rewrite (Ascii_compare_Lt_trans _ _ _ Hab Hbc).
Qed.

Definition string_le (a b : string) : Prop := String.leb a b = true.

#[local] Instance string_le_trans : Transitive string_le.
Proof.
  unfold string_le, String.leb. intros s1 s2 s3 H12 H23.
  destruct (String.compare s1 s2) eqn:E12; [| |done].
  - by apply String.compare_eq_iff in E12 as ->.
  - destruct (String.compare s2 s3) eqn:E23; [| |done].
    + apply String.compare_eq_iff in E23 as <-. by rewrite E12.
    + by rewrite (String_compare_Lt_trans _ _ _ E12 E23).
Qed.

#[local] Instance string_le_antisym : AntiSymm (=) string_le.
Proof. intros s1 s2. apply String.leb_antisym. Qed.

(** The sorted list is the same in whatever order the items come. *)
Lemma sorted_Permutation l l' : l ≡ₚ l' -> sorted l = sorted l'.
Proof.
  intros Hperm. apply (Sorted_unique string_le).
  - apply (stable_sort_Sorted String.leb id String.leb_total).
  - apply (stable_sort_Sorted String.leb id String.leb_total).
  - unfold sorted. by rewrite !stable_sort_Permutation.
Qed.

Section infer_device_properties.
Context `{Countable Device} (CPU : Device) (device_type : Device -> string).

(** X26.  [infer_device] has three cases.  A module without parameters
    and buffers is on the CPU; one whose tensors are all on one device is
    on that device; and as soon as two tensors are on different devices
    it raises [ValueError].  The message lists the types of the distinct
    devices in sorted order, one entry for each device, so that a type
    is listed as often as there are devices of it. *)
Theorem X26_infer_device_cases (parameters buffers : list Device) (name : string) :
  (parameters ++ buffers = [] ->
   infer_device CPU device_type parameters buffers name = Returned CPU)
  /\ (forall d,
         parameters ++ buffers <> [] ->
         Forall (fun device => device = d) (parameters ++ buffers) ->
         infer_device CPU device_type parameters buffers name = Returned d)
  /\ (forall d1 d2 listing,
         d1 ∈ parameters ++ buffers ->
         d2 ∈ parameters ++ buffers ->
         d1 <> d2 ->
         NoDup listing ->
         (forall d, d ∈ listing <-> d ∈ parameters ++ buffers) ->
         infer_device CPU device_type parameters buffers name
         = Raised (Builtin (ValueError
                              (different_devices_message name
                                 (join ", "
                                    (sorted (quoted_type device_type
                                               <$> listing))))))).
Proof.
  unfold infer_device. generalize (parameters ++ buffers). clear parameters buffers.
  intros tensors. split; [|split].
  - intros ->. by rewrite list_to_set_nil, elements_empty.
  - intros d Hsome Hall.
    assert (list_to_set tensors = ({[ d ]} : gset Device)) as ->.
    { apply set_eq. intros x. rewrite elem_of_list_to_set, elem_of_singleton.
      rewrite Forall_forall in Hall. split; [by apply Hall|intros ->].
      destruct tensors as [|t rest]; [done|].
      rewrite <- (Hall t); by left. }
    by rewrite elements_singleton.
  - intros d1 d2 listing H1 H2 Hne Hnodup Hlisting.
    assert (listing ≡ₚ elements (list_to_set tensors : gset Device)) as Hperm.
    { apply NoDup_Permutation; [done|apply NoDup_elements|].
      intros d. by rewrite Hlisting, elem_of_elements, elem_of_list_to_set. }
    rewrite (sorted_Permutation _ _ (fmap_Permutation _ _ _ Hperm)).
    assert (forall d, d ∈ tensors ->
                      d ∈ elements (list_to_set tensors : gset Device)) as Hin
      by (intros d; by rewrite elem_of_elements, elem_of_list_to_set).
    apply Hin in H1, H2.
    destruct (elements (list_to_set tensors : gset Device)) as [|d [|d' rest]];
      [by apply elem_of_nil in H1| |done].
    apply list_elem_of_singleton in H1, H2. congruence.
Qed.
End infer_device_properties.

Definition cuda (index : nat) : string * option nat := ("cuda", Some index).

Lemma X26_infer_device_cases_witness :
  infer_device ("cpu", None) fst [cuda 0] [cuda 1; cuda 0] "module"
  = Raised (Builtin (ValueError
                       (different_devices_message "module"
                          (join ", " (sorted (quoted_type fst
                                                <$> [cuda 0; cuda 1])))))).
Proof.
  apply (proj2 (proj2 (X26_infer_device_cases ("cpu", None) fst
                         [cuda 0] [cuda 1; cuda 0] "module"))
           (cuda 0) (cuda 1) [cuda 0; cuda 1]).
  - by left.
  - right. by left.
  - discriminate.
  - apply NoDup_cons_2; [|apply NoDup_singleton].
    rewrite list_elem_of_singleton. discriminate.
  - intros d. simpl. rewrite !elem_of_cons, !elem_of_nil. tauto.
Defined.

Example infer_device_message :
  different_devices_message "module"
    (join ", " (sorted (quoted_type fst <$> [cuda 0; ("cpu", None); cuda 1])))
  = "All parameters and buffers of `module` must be on the same device, but they are on ''cpu', 'cuda', 'cuda''.".
Proof. reflexivity. Qed.


(** ** [_get_named_modules] and [visit_module] *)

#[local] Set Warnings "-clear-no-such-hyp".

(** A module is an object, which [id] stands for, with its [_modules];
    a descendant may be registered as [None].  [module in memo] asks for
    the object, so the memo is a set of [id]s. *)
Inductive Module : Type :=
| mkModule (id : nat) (_modules : list (string * option Module)).

Definition module_id (module : Module) : nat :=
  match module with mkModule id _ => id end.

Definition descendant_prefix (prefix descendant_name : string) : string :=
  match prefix with
  | "" => descendant_name
  | _ => prefix +:+ "." +:+ descendant_name
  end.

(** What a generator yields, and the memo as it is when the generator
    is exhausted. *)
Definition Yielded : Type := list (string * option Module) * option (gset nat).

(** The loop over [module._modules.items()]; [visit] is the call of
    [_get_named_modules] on a descendant that is a module, and a
    descendant that is [None] is yielded with its name. *)
Definition yield_from_descendants
    (visit : Module -> string -> option (gset nat) -> Yielded) (prefix : string)
  : list (string * option Module) -> option (gset nat) -> Yielded :=
  fix loop _modules memo :=
    match _modules with
    | [] => ([], memo)
    | (descendant_name, descendant) :: rest =>
        let yielded :=
          match descendant with
          | None => ([(descendant_prefix prefix descendant_name, None)], memo)
          | Some module =>
              visit module (descendant_prefix prefix descendant_name) memo
          end in
        let others := loop rest yielded.2 in
        (yielded.1 ++ others.1, others.2)
    end.

(** [_get_named_modules] on a module that is not [None]. *)
Fixpoint named_modules (module : Module) (prefix : string)
    (recurse post_order : bool) (memo : option (gset nat)) : Yielded :=
  match module with
  | mkModule id _modules =>
      let memo :=
        match memo with
        | None => if recurse then Some ∅ else None
        | Some _ => memo
        end in
      if from_option (fun visited => bool_decide (id ∈ visited)) false memo
      then ([], memo)
      else
        let memo := (fun visited => {[ id ]} ∪ visited) <$> memo in
        let descendants :=
          if recurse then
            yield_from_descendants
              (fun descendant descendant_prefix memo =>
                 named_modules descendant descendant_prefix recurse post_order
                   memo)
              prefix _modules memo
          else ([], memo) in
        if post_order then
          (descendants.1 ++ [(prefix, Some module)], descendants.2)
        else ((prefix, Some module) :: descendants.1, descendants.2)
  end.

Definition _get_named_modules (module : option Module) (prefix : string)
    (recurse post_order : bool) (memo : option (gset nat)) : Yielded :=
  match module with
  | None => ([(prefix, None)], memo)
  | Some module => named_modules module prefix recurse post_order memo
  end.

(** [visit_module]: the calls of [visitor], in order, and the memo
    afterwards. *)
Definition visit_module (module : Module) (recurse post_order : bool)
    (memo : option (gset nat)) : list (string * Module) * option (gset nat) :=
  let yielded := _get_named_modules (Some module) "" recurse post_order memo in
  (omap (fun item => pair item.1 <$> item.2) yielded.1, yielded.2).

(** The objects among what was yielded. *)
Definition yielded_ids (items : list (string * option Module)) : list nat :=
  omap (fun item => module_id <$> item.2) items.

Lemma Module_nested_ind (P : Module -> Prop) :
  (forall id _modules,
      Forall (fun item => forall module, item.2 = Some module -> P module)
        _modules ->
      P (mkModule id _modules)) ->
  forall module, P module.
Proof.
  intros Hstep. fix IH 1. intros [id _modules]. apply Hstep.
  revert _modules. fix IHl 1. intros [|[name [module|]] rest].
  - constructor.
  - constructor; [|apply IHl]. intros module' [= <-]. apply IH.
  - constructor; [|apply IHl]. intros module' [=].
Qed.

Lemma yielded_ids_app items items' :
  yielded_ids (items ++ items') = yielded_ids items ++ yielded_ids items'.
Proof. apply omap_app. Qed.

(** With a memo, what a traversal yields is new and yielded once, and
    the memo ends as what it was plus what was yielded. *)
Definition fresh (visited : gset nat) (yielded : Yielded) : Prop :=
  NoDup (yielded_ids yielded.1)
  /\ (forall id, id ∈ yielded_ids yielded.1 -> id ∉ visited)
  /\ yielded.2 = Some (visited ∪ list_to_set (yielded_ids yielded.1)).

Lemma yield_from_descendants_fresh visit prefix _modules :
  Forall (fun item => forall module, item.2 = Some module ->
            forall prefix visited, fresh visited (visit module prefix (Some visited)))
    _modules ->
  forall visited,
    fresh visited (yield_from_descendants visit prefix _modules (Some visited)).
Proof.
  induction 1 as [|[name descendant] rest Hitem _ IH]; intros visited.
  - unfold fresh. simpl. split; [constructor|]. split; [by intros id ?%elem_of_nil|].
    f_equal. set_solver.
  - simpl yield_from_descendants.
    set (yielded := match descendant with
                    | Some module => visit module (descendant_prefix prefix name)
                                       (Some visited)
                    | None => ([(descendant_prefix prefix name, None)], Some visited)
                    end).
    assert (fresh visited yielded) as (Hnodup & Hnew & Hmemo).
    { subst yielded. destruct descendant as [module|]; [by apply Hitem|].
      unfold fresh. simpl. split; [constructor|].
      split; [by intros id ?%elem_of_nil|]. f_equal. set_solver. }
    rewrite Hmemo.
    destruct (IH (visited ∪ list_to_set (yielded_ids yielded.1)))
      as (Hnodup' & Hnew' & Hmemo').
    unfold fresh. cbn [fst snd]. rewrite yielded_ids_app. split; [|split].
    + apply NoDup_app. split; [done|]. split; [|done].
      intros id Hid Hid'. apply Hnew' in Hid'. set_solver.
    + intros id [Hid|Hid]%elem_of_app; [by apply Hnew|].
      apply Hnew' in Hid. set_solver.
    + rewrite Hmemo'. f_equal. set_solver.
Qed.

Lemma named_modules_fresh module :
  forall prefix post_order visited,
    fresh visited (named_modules module prefix true post_order (Some visited)).
Proof.
  induction module as [id _modules IH] using Module_nested_ind.
  intros prefix post_order visited. simpl named_modules.
  case_bool_decide as Hseen.
  - unfold fresh. simpl. split; [constructor|].
    split; [by intros ? ?%elem_of_nil|]. f_equal. set_solver.
  - cbn [fmap option_fmap option_map].
    destruct (yield_from_descendants_fresh
                (fun descendant descendant_prefix memo =>
                   named_modules descendant descendant_prefix true post_order memo)
                prefix _modules) with (visited := {[ id ]} ∪ visited)
      as (Hnodup & Hnew & Hmemo).
    { eapply Forall_impl; [exact IH|]. intros item Hitem module Hmodule ??.
      by apply Hitem. }
    unfold fresh. destruct post_order; cbn [fst snd].
    + rewrite yielded_ids_app. simpl. split; [|split].
      * apply NoDup_app. split; [done|]. split; [|apply NoDup_singleton].
        intros i Hi Hi'%list_elem_of_singleton. subst i.
        apply Hnew in Hi. set_solver.
      * intros i [Hi|Hi%list_elem_of_singleton]%elem_of_app; [|by subst i].
        apply Hnew in Hi. set_solver.
      * rewrite Hmemo. f_equal. set_solver.
    + simpl. split; [|split].
      * apply NoDup_cons_2; [|done]. intros Hi. apply Hnew in Hi. set_solver.
      * intros i [->|Hi]%elem_of_cons; [done|]. apply Hnew in Hi. set_solver.
      * rewrite Hmemo. f_equal. set_solver.
Qed.

Lemma named_modules_no_memo module prefix post_order :
  named_modules module prefix true post_order None
  = named_modules module prefix true post_order (Some ∅).
Proof. by destruct module. Qed.

Lemma named_modules_seen module prefix post_order visited :
  module_id module ∈ visited ->
  named_modules module prefix true post_order (Some visited) = ([], Some visited).
Proof.
  destruct module as [id _modules]. simpl. intros Hseen.
  by rewrite bool_decide_eq_true_2.
Qed.

Lemma named_modules_unseen module prefix post_order visited :
  module_id module ∉ visited ->
  let yielded := named_modules module prefix true post_order (Some visited) in
  (if post_order then last yielded.1 else head yielded.1)
  = Some (prefix, Some module).
Proof.
  destruct module as [id _modules]. simpl. intros Hnew.
  rewrite bool_decide_eq_false_2 by done.
  destruct post_order; cbn [fst snd]; [|done]. by rewrite last_snoc.
Qed.

(** X27.  A recursive traversal with a memo yields no module twice and
    none that the memo held before, however the modules are shared, and
    the memo ends as what it was plus the modules yielded.  The module
    that the traversal starts from is yielded, first in pre-order and
    last in post-order, unless the memo holds it: then nothing at all is
    yielded, not even the descendants that are [None]. *)
Theorem X27_each_module_is_yielded_once (module : Module) (prefix : string)
    (post_order : bool) (memo : option (gset nat)) :
  let yielded := _get_named_modules (Some module) prefix true post_order memo in
  NoDup (yielded_ids yielded.1)
  /\ (forall id, id ∈ yielded_ids yielded.1 -> id ∉ default ∅ memo)
  /\ yielded.2 = Some (default ∅ memo ∪ list_to_set (yielded_ids yielded.1))
  /\ (module_id module ∉ default ∅ memo ->
      (if post_order then last yielded.1 else head yielded.1)
      = Some (prefix, Some module))
  /\ (module_id module ∈ default ∅ memo -> yielded = ([], memo)).
Proof.
  simpl _get_named_modules.
  assert (named_modules module prefix true post_order memo
          = named_modules module prefix true post_order (Some (default ∅ memo)))
    as -> by (destruct memo; [done|apply named_modules_no_memo]).
  destruct (named_modules_fresh module prefix post_order (default ∅ memo))
    as (Hnodup & Hnew & Hmemo).
  repeat split; try done.
  - apply named_modules_unseen.
  - intros Hseen. rewrite (named_modules_seen _ _ _ _ Hseen).
    destruct memo as [visited|]; [done|]. by apply elem_of_empty in Hseen.
Qed.

Lemma yield_from_descendants_order visit visit' prefix _modules :
  Forall (fun item => forall module, item.2 = Some module ->
            forall prefix memo,
              (visit module prefix memo).1 ≡ₚ (visit' module prefix memo).1
              /\ (visit module prefix memo).2 = (visit' module prefix memo).2)
    _modules ->
  forall memo,
    (yield_from_descendants visit prefix _modules memo).1
    ≡ₚ (yield_from_descendants visit' prefix _modules memo).1
    /\ (yield_from_descendants visit prefix _modules memo).2
       = (yield_from_descendants visit' prefix _modules memo).2.
Proof.
  induction 1 as [|[name descendant] rest Hitem _ IH]; intros memo; [done|].
  simpl yield_from_descendants. destruct descendant as [module|].
  - destruct (Hitem module eq_refl (descendant_prefix prefix name) memo)
      as [Hperm Hmemo].
    rewrite Hmemo. cbn [fst snd].
    destruct (IH (visit' module (descendant_prefix prefix name) memo).2)
      as [Hperm' Hmemo'].
    by rewrite Hperm, Hperm', Hmemo'.
  - cbn [fst snd]. destruct (IH memo) as [Hperm' Hmemo']. by rewrite Hperm', Hmemo'.
Qed.

Lemma named_modules_order module :
  forall prefix recurse memo,
    (named_modules module prefix recurse true memo).1
    ≡ₚ (named_modules module prefix recurse false memo).1
    /\ (named_modules module prefix recurse true memo).2
       = (named_modules module prefix recurse false memo).2.
Proof.
  induction module as [id _modules IH] using Module_nested_ind.
  intros prefix recurse memo. simpl named_modules.
  destruct (from_option _ false _); [done|].
  destruct recurse; cbn [fst snd]; [|done].
  match goal with
  | |- context [yield_from_descendants _ prefix _modules ?memo'] =>
      destruct (yield_from_descendants_order
                  (fun descendant descendant_prefix memo =>
                     named_modules descendant descendant_prefix true true memo)
                  (fun descendant descendant_prefix memo =>
                     named_modules descendant descendant_prefix true false memo)
                  prefix _modules) with (memo := memo') as [Hperm Hmemo]
  end.
  { eapply Forall_impl; [exact IH|]. intros item Hitem module Hmodule ??.
    by apply Hitem. }
  split; [|done]. rewrite Hperm. by rewrite <- Permutation_cons_append.
Qed.

(** X28.  [post_order] changes the order of what is yielded and nothing
    else: with the same prefix, [recurse] and memo, the post-order
    traversal yields the items of the pre-order one, each as often, and
    leaves the same memo. *)
Theorem X28_post_order_is_a_reordering (module : option Module)
    (prefix : string) (recurse : bool) (memo : option (gset nat)) :
  (_get_named_modules module prefix recurse true memo).1
  ≡ₚ (_get_named_modules module prefix recurse false memo).1
  /\ (_get_named_modules module prefix recurse true memo).2
     = (_get_named_modules module prefix recurse false memo).2.
Proof.
  destruct module as [module|]; [|done]. apply named_modules_order.
Qed.

Lemma visit_module_ids module recurse post_order memo name visited_module :
  (name, visited_module) ∈ (visit_module module recurse post_order memo).1 ->
  module_id visited_module
  ∈ yielded_ids
      (_get_named_modules (Some module) "" recurse post_order memo).1.
Proof.
  unfold visit_module, yielded_ids. cbn [fst].
  intros ([name' [m|]] & Hin & Hitem)%list_elem_of_omap; [|done].
  simpl in Hitem. injection Hitem as <- <-.
  apply list_elem_of_omap. by exists (name', Some m).
Qed.

(** X29.  Visits that share a memo call the visitor once for a module:
    after a recursive visit of [module] that was given the memo, a visit
    of [module'] given the same memo calls the visitor on none of the
    modules the first visit called it on, and a second visit of [module]
    itself calls it on nothing. *)
Theorem X29_shared_memo_visits_once (module module' : Module)
    (post_order post_order' : bool) (visited : gset nat) :
  let first := visit_module module true post_order (Some visited) in
  (forall name name' m m',
      (name, m) ∈ first.1 ->
      (name', m') ∈ (visit_module module' true post_order' first.2).1 ->
      module_id m <> module_id m')
  /\ visit_module module true post_order' first.2 = ([], first.2).
Proof.
  pose proof (named_modules_fresh module "" post_order visited)
    as (Hnodup & Hnew & Hmemo).
  intros first.
  assert (first.2
          = Some (visited
                  ∪ list_to_set
                      (yielded_ids
                         (named_modules module "" true post_order
                            (Some visited)).1))) as Hfirst by exact Hmemo.
  rewrite Hfirst. split.
  - intros name name' m m' Hm%visit_module_ids Hm'%visit_module_ids.
    simpl _get_named_modules in Hm, Hm'.
    destruct (named_modules_fresh module' "" post_order'
                (visited ∪ list_to_set
                             (yielded_ids
                                (named_modules module "" true post_order
                                   (Some visited)).1)))
      as (_ & Hnew' & _).
    apply Hnew' in Hm'. intros Heq. rewrite Heq in Hm. set_solver.
  - unfold visit_module. simpl _get_named_modules.
    rewrite named_modules_seen; [done|].
    destruct (decide (module_id module ∈ visited)) as [Hseen|Hunseen];
      [set_solver|].
    pose proof (named_modules_unseen module "" post_order visited Hunseen)
      as Hroot. simpl in Hroot.
    assert ((EmptyString, Some module)
            ∈ (named_modules module "" true post_order (Some visited)).1)
      as Hin.
    { destruct post_order.
      - by apply last_Some_elem_of.
      - by apply head_Some_elem_of. }
    apply elem_of_union_r, elem_of_list_to_set, list_elem_of_omap.
    by exists (EmptyString, Some module).
Qed.

Definition shared_module : Module := mkModule 2 [("norm", None)].

Definition sample_modules : list (string * option Module) :=
  [ ("a", Some (mkModule 1 [("s", Some shared_module)]));
    ("b", Some shared_module);
    ("c", None) ].

Definition sample_module : Module := mkModule 0 sample_modules.

Definition names_and_ids (items : list (string * option Module))
  : list (string * option nat) :=
  (fun item : string * option Module => (item.1, module_id <$> item.2))
    <$> items.

(** The shared module is yielded under the first of its names only. *)
Example _get_named_modules_sample :
  names_and_ids
    (_get_named_modules (Some sample_module) "module" true false None).1
  = [ ("module", Some 0%nat); ("module.a", Some 1%nat);
      ("module.a.s", Some 2%nat); ("module.a.s.norm", None);
      ("module.c", None) ]
  /\ names_and_ids
       (_get_named_modules (Some sample_module) "" true true None).1
     = [ ("a.s.norm", None); ("a.s", Some 2%nat); ("a", Some 1%nat);
         ("c", None); ("", Some 0%nat) ].
Proof. split; vm_compute; reflexivity. Qed.

(** ** [load_state_dict] *)

(** The keys gathered by the two loops: for every descendant yielded as
    [None], in the order of the traversal, the keys that start with its
    name and a dot. *)
Definition unexpected_keys (module : Module) (keys : list string) : list string :=
  flat_map
    (fun item =>
       match item.2 with
       | Some _ => []
       | None =>
           filter (fun key => String.prefix (item.1 +:+ ".") key = true) keys
       end)
    (_get_named_modules (Some module) "" true false None).1.

Definition unexpected_keys_message (keys : list string) : string :=
  "Unexpected key(s) in `state_dict`: " +:+ join ", " keys.

(** [module_load_state_dict] is what [Module.load_state_dict] with
    [strict=True] does with the state dict, of which the rest of the
    function reads the keys only. *)
Definition load_state_dict {T : Type} (module_load_state_dict : Result unit)
    (module : Module) (state_dict : list (string * T)) : Result unit :=
  _ ← module_load_state_dict;
  match unexpected_keys module state_dict.*1 with
  | [] => Returned ()
  | keys => Raised (RuntimeError (unexpected_keys_message keys))
  end.

Lemma yield_from_descendants_None visit prefix _modules memo name :
  (name, None) ∈ _modules ->
  (descendant_prefix prefix name, None)
  ∈ (yield_from_descendants visit prefix _modules memo).1.
Proof.
  revert memo. induction _modules as [|[name' descendant] rest IH];
    intros memo Hin; [by apply elem_of_nil in Hin|].
  simpl yield_from_descendants. cbn [fst]. apply elem_of_app.
  apply elem_of_cons in Hin as [[= <- <-]|Hin].
  - left. by left.
  - right. by apply IH.
Qed.

Lemma prefix_app s rest : String.prefix s (s +:+ rest) = true.
Proof.
  induction s as [|c s IH]; simpl; [by destruct rest|].
  by destruct (Ascii.ascii_dec c c).
Qed.

Lemma prefix_app_app s t rest :
  String.prefix (s +:+ t) (s +:+ t +:+ rest) = true.
Proof.
  induction s as [|c s IH]; [exact (prefix_app t rest)|].
  change (String.prefix (String c (s +:+ t)) (String c (s +:+ t +:+ rest)) = true).
  simpl. by destruct (Ascii.ascii_dec c c).
Qed.

(** X30.  [load_state_dict] returns exactly when
    [Module.load_state_dict] does and no key of the state dict starts
    with the name of a descendant yielded as [None] followed by a dot.
    In particular a key under a child of the module that is registered
    as [None] ends the call with [RuntimeError], even though the strict
    load went through. *)
Theorem X30_load_state_dict_rejects_keys_of_missing_modules {T : Type}
    (module_load_state_dict : Result unit) (module : Module)
    (state_dict : list (string * T)) :
  (load_state_dict module_load_state_dict module state_dict = Returned ()
   <-> module_load_state_dict = Returned ()
       /\ forall name key,
           (name, None)
           ∈ (_get_named_modules (Some module) "" true false None).1 ->
           key ∈ state_dict.*1 ->
           String.prefix (name +:+ ".") key = false)
  /\ (forall id _modules name rest value,
         module = mkModule id _modules ->
         (name, None) ∈ _modules ->
         (name +:+ "." +:+ rest, value) ∈ state_dict ->
         module_load_state_dict = Returned () ->
         load_state_dict module_load_state_dict module state_dict
         = Raised (RuntimeError
                     (unexpected_keys_message
                        (unexpected_keys module state_dict.*1)))).
Proof.
  assert (unexpected_keys module state_dict.*1 = []
          <-> forall name key,
              (name, None)
              ∈ (_get_named_modules (Some module) "" true false None).1 ->
              key ∈ state_dict.*1 ->
              String.prefix (name +:+ ".") key = false) as Hnone.
  { unfold unexpected_keys.
    generalize (_get_named_modules (Some module) "" true false None).1.
    intros items. induction items as [|[name' [m|]] items IH]; simpl.
    - split; [by intros _ ?? ?%elem_of_nil|done].
    - rewrite IH. split.
      + intros Hitems name key [[=]|Hin]%elem_of_cons. by apply Hitems.
      + intros Hitems name key Hin. apply Hitems. by right.
    - split.
      + intros [Hfirst Hrest]%app_eq_nil name key [[= ->]|Hin]%elem_of_cons Hkey.
        * destruct (String.prefix (name' +:+ ".") key) eqn:Hprefix; [|done].
          assert (key ∈ filter (fun key => String.prefix (name' +:+ ".") key = true)
                         state_dict.*1) as Hbad
            by (by apply list_elem_of_filter).
          rewrite Hfirst in Hbad. by apply elem_of_nil in Hbad.
        * by apply (proj1 IH Hrest name key).
      + intros Hitems. apply app_nil. split.
        * apply elem_of_nil_inv. intros key [Hprefix Hkey]%list_elem_of_filter.
          rewrite (Hitems name' key) in Hprefix; [done|by left|done].
        * apply IH. intros name key Hin. apply Hitems. by right. }
  split.
  - unfold load_state_dict. rewrite <- Hnone.
    destruct module_load_state_dict as [[]|e]; [|by split; [|intros []]].
    rewrite Result_bind_Returned.
    destruct (unexpected_keys module state_dict.*1); by split; [|intros []].
  - intros id _modules name rest value -> Hchild Hkey ->.
    unfold load_state_dict. rewrite Result_bind_Returned.
    destruct (unexpected_keys (mkModule id _modules) state_dict.*1) eqn:Hkeys;
      [|done].
    assert (String.prefix (name +:+ ".") (name +:+ "." +:+ rest) = false)
      as Hbad; [|by rewrite prefix_app_app in Hbad].
    apply (proj1 Hnone eq_refl).
    + simpl. right.
      apply (yield_from_descendants_None _ "" _modules _ name Hchild).
    + apply list_elem_of_fmap. by exists (name +:+ "." +:+ rest, value).
Qed.

Definition sample_state_dict : list (string * nat) :=
  [ ("a.s.weight", 1%nat); ("c.weight", 2%nat) ].

Lemma X30_load_state_dict_rejects_keys_of_missing_modules_witness :
  load_state_dict (Returned ()) sample_module sample_state_dict
  = Raised (RuntimeError
              (unexpected_keys_message
                 (unexpected_keys sample_module sample_state_dict.*1))).
Proof.
  apply (proj2 (X30_load_state_dict_rejects_keys_of_missing_modules
                  (Returned ()) sample_module sample_state_dict)
           0%nat sample_modules "c" "weight" 2%nat);
    [reflexivity| | |reflexivity].
  - right. right. by left.
  - right. by left.
Defined.

Example load_state_dict_sample :
  load_state_dict (Returned ()) sample_module sample_state_dict
  = Raised (RuntimeError "Unexpected key(s) in `state_dict`: c.weight").
Proof. vm_compute. reflexivity. Qed.
